(** * Client-side authorization of networked-entity messages

    A shallow embedding of [permissions-utils.js]: the permission policy
    ([authorizeEntityManipulation]), the field sanitizer
    ([sanitizeMessageData]), the entity metadata resolver
    ([getPendingOrExistingEntityMetadata]), the persistent-sync stash
    ([stashPersistentSync], [applyPersistentSync]) and the message gate
    ([authorizeOrSanitizeMessage]).

    JavaScript objects used as dictionaries are finite maps over their own
    string keys.  Messages arrive decoded from the wire, so they are trees:
    no object occurs twice in a message.  Mutation in place is therefore
    modelled by returning the new contents of the mutated object. *)

From stdpp Require Import gmap strings list fin_maps pretty.

Local Open Scope string_scope.

(** ** JavaScript values and outcomes *)

(** Values carried by message fields and component slots.  The gate never
    looks inside a component value, so nested objects are atoms. *)
Inductive jsval :=
  | JUndefined
  | JNull
  | JBool (b : bool)
  | JNum (z : Z)
  | JStr (s : string)
  | JObj (tag : N).

#[global] Instance jsval_eq_dec : EqDecision jsval.
Proof. solve_decision. Defined.

(** [ToBoolean] on a value, and on a property read that may find nothing. *)
Definition truthy (v : jsval) : bool :=
  match v with
  | JUndefined | JNull => false
  | JBool b => b
  | JNum z => negb (z =? 0)%Z
  | JStr s => negb (String.eqb s "")
  | JObj _ => true
  end.

Definition truthy_prop (o : option jsval) : bool :=
  match o with Some v => truthy v | None => false end.

(** A call either returns or raises a [TypeError] (a property read on
    [undefined] or [null], a call of something that is no function).
    [Unmodelled] marks the one thing this development does not follow: a
    write to the property ["__proto__"] of an object that has no own
    property of that name, which replaces the object's prototype. *)
Inductive outcome (A : Type) :=
  | Ok (a : A)
  | TypeError
  | Unmodelled.
Arguments Ok {A} a.
Arguments TypeError {A}.
Arguments Unmodelled {A}.

#[global] Instance outcome_ret : MRet outcome := fun _ a => Ok a.
#[global] Instance outcome_bind : MBind outcome := fun _ _ k c =>
  match c with Ok a => k a | TypeError => TypeError | Unmodelled => Unmodelled end.

(** Run [c]; on return bind its value to [p], otherwise propagate. *)
Notation "'run' p ← c ; k" :=
  (match c with Ok p => k | TypeError => TypeError | Unmodelled => Unmodelled end)
  (at level 10, p pattern, c at level 100, k at level 200, only parsing).

(** The names [Object.prototype] defines (ECMAScript, Annex B included).  A
    plain object answers a read of one of them, with a function or with the
    prototype itself, even when it has no own property of that name. *)
Definition Object_prototype_members : list string :=
  ["constructor"; "__defineGetter__"; "__defineSetter__"; "hasOwnProperty";
   "__lookupGetter__"; "__lookupSetter__"; "isPrototypeOf"; "propertyIsEnumerable";
   "toString"; "valueOf"; "__proto__"; "toLocaleString"].

(** ** Strings *)

Fixpoint starts_with (p l : list Ascii.ascii) : bool :=
  match p, l with
  | [], _ => true
  | _ :: _, [] => false
  | a :: p', b :: l' => Ascii.eqb a b && starts_with p' l'
  end.

(** [String.prototype.endsWith]: the suffix, read backwards, starts the
    string read backwards. *)
Definition endsWith (s suffix : string) : bool :=
  starts_with (reverse (String.list_ascii_of_string suffix)) (reverse (String.list_ascii_of_string s)).

(** ** Permission policy *)

Record EntityMetadata := {
  template : string;
  creator : string
}.

(** [presence.state[id].metas[0].permissions]: capability name to flag.  A
    capability that is not listed reads as [undefined], which is falsy. *)
Abbreviation Permissions := (gmap string bool).

Definition can (perms : Permissions) (capability : string) : bool :=
  default false (perms !! capability).

(** The source returns [isCreator || senderPermissions.x]; every caller
    uses the result as a condition, so the embedding returns its truth
    value. *)
Definition authorizeEntityManipulation
    (entityMetadata : EntityMetadata) (sender : string) (senderPermissions : Permissions) : bool :=
  let isCreator := String.eqb sender (creator entityMetadata) in
  if endsWith (template entityMetadata) "-avatar" then
    isCreator
  else if endsWith (template entityMetadata) "-media" then
    isCreator || can senderPermissions "spawn_and_move_media"
  else if endsWith (template entityMetadata) "-camera" then
    isCreator || can senderPermissions "spawn_camera"
  else if endsWith (template entityMetadata) "-pen" || endsWith (template entityMetadata) "-drawing" then
    isCreator || can senderPermissions "spawn_drawing"
  else
    false.

(** ** Data model *)

(** One per-entity update.  [fields] holds the own top-level fields other
    than [networkId] and [components] ([persistent], [isFirstSync],
    [owner], [lastOwnerTime], ...); [components] is the sparse mapping from
    slot index to value. *)
Record EntityData := {
  networkId : string;
  fields : gmap string jsval;
  components : gmap string jsval
}.

Definition persistent (data : EntityData) : bool := truthy_prop (fields data !! "persistent").
Definition isFirstSync (data : EntityData) : bool := truthy_prop (fields data !! "isFirstSync").

(** [message.data] by message kind.  An entry of a bulk list may be [null]
    (the gate itself writes [null] into dropped slots).  [OtherKind] stands
    for every [dataType] other than ["u"], ["um"] and ["r"]. *)
Inductive Body :=
  | Update (data : EntityData)
  | UpdateMulti (d : list (option EntityData))
  | Remove (data : EntityData)
  | OtherKind (kind : string) (payload : jsval).

Record Message := {
  body : Body;
  clientId : string;
  from_session_id : string
}.

Definition dataType (message : Message) : string :=
  match body message with
  | Update _ => "u"
  | UpdateMulti _ => "um"
  | Remove _ => "r"
  | OtherKind kind _ => kind
  end.

(** A message whose [dataType] is ["u"]: what the stash holds. *)
Record UpdateMessage := {
  data : EntityData;
  u_clientId : string;
  u_from_session_id : string
}.

Definition as_message (u : UpdateMessage) : Message :=
  {| body := Update (data u); clientId := u_clientId u; from_session_id := u_from_session_id u |}.

(** What the gate returns: the message, or the shared [emptyObject]; and,
    when it is handed a member of [Object.prototype] instead of a message,
    possibly that member. *)
Inductive Reply :=
  | Forward (message : Message)
  | emptyObject
  | ForwardInherited (member : string).

Definition with_body (message : Message) (b : Body) : Message :=
  {| body := b; clientId := clientId message; from_session_id := from_session_id message |}.

(** ** Schema registry *)

Inductive Descriptor :=
  | Bare (component : string)
  | Property (component property : string).

Module Schema.
Record t := {
  components : list Descriptor;
  nonAuthorizedComponents : option (list Descriptor)
}.
End Schema.

(** [Array.prototype.findIndex]. *)
Fixpoint findIndexFrom {A} (p : A → bool) (l : list A) (i : Z) : Z :=
  match l with
  | [] => (-1)%Z
  | x :: r => if p x then i else findIndexFrom p r (i + 1)%Z
  end.

Definition findIndex {A} (p : A → bool) (l : list A) : Z := findIndexFrom p l 0%Z.

Definition indexForComponent (component : Descriptor) (schema : Schema.t) : Z :=
  match component with
  | Bare componentName =>
      findIndex (λ schemaComponent,
        match schemaComponent with
        | Bare name => String.eqb name componentName
        | Property _ _ => false
        end) (Schema.components schema)
  | Property componentName property =>
      findIndex (λ schemaComponent,
        match schemaComponent with
        | Bare _ => false
        | Property c p => String.eqb c componentName && String.eqb p property
        end) (Schema.components schema)
  end.

(** Template name to the slot indices, as strings, a non-owner may set. *)
Definition initializeNonAuthorizedSchemas (schemaDict : gmap string Schema.t)
    : gmap string (list string) :=
  (λ schema,
     (λ nonAuthorizedComponent, pretty (indexForComponent nonAuthorizedComponent schema))
       <$> default [] (Schema.nonAuthorizedComponents schema)) <$> schemaDict.

(** ** Collaborators and module state *)

(** A pending-creation record; [owner] is optional. *)
Module Pending.
Record t := {
  template : string;
  creator : string;
  owner : option string
}.
End Pending.

(** Modelled from the spec: [getNetworkedTemplate] and [getCreator] live in
    ownership-utils, which is absent; an entity handle yields a template
    string and a creator string. *)
Record Entity := {
  getNetworkedTemplate : string;
  getCreator : string
}.

(** What the gate reads and never writes: the presence directory (an entry
    is its first meta's permission set), the runtime's pending-creation
    table and materialized entities, and [NAF.schemas.schemaDict]. *)
Record World := {
  presence : gmap string Permissions;
  getPendingDataForNetworkId : gmap string Pending.t;
  getEntity : gmap string Entity;
  schemaDict : gmap string Schema.t
}.

Definition PHOENIX_RELIABLE_NAF : string := "phx-reliable".

(** The module-level variables, and the calls made to the runtime's
    [onData], oldest first. *)
Record State := {
  nonAuthorizedSchemas : option (gmap string (list string));
  persistentSyncs : gmap string UpdateMessage;
  onData : list (Reply * string)
}.

Definition initial : State :=
  {| nonAuthorizedSchemas := None; persistentSyncs := ∅; onData := [] |}.

(** ** Field sanitizer *)

(** One turn of the loop over the payload's own slots.  The call
    [data.components.hasOwnProperty(index)] finds the payload's own slot
    ["hasOwnProperty"] when there is one, and that is no function; otherwise
    it finds the inherited method, which answers true on an own slot.
    [nonAuthorizedIndices] is [None] when the template has no entry, and
    calling [includes] on it raises. *)
Definition sanitize_slot (nonAuthorizedIndices : option (list string))
    (index : string) (_ : jsval) (acc : outcome (gmap string jsval))
    : outcome (gmap string jsval) :=
  run comps ← acc;
  if bool_decide (is_Some (comps !! "hasOwnProperty")) then TypeError
  else
    match nonAuthorizedIndices with
    | None => TypeError
    | Some indices =>
        if bool_decide (index ∈ indices) then Ok comps else Ok (<[index := JNull]> comps)
    end.

Definition schemas_in_effect (w : World) (st : State) : gmap string (list string) :=
  match nonAuthorizedSchemas st with
  | Some schemas => schemas
  | None => initializeNonAuthorizedSchemas (schemaDict w)
  end.

Definition with_schemas (st : State) (schemas : gmap string (list string)) : State :=
  {| nonAuthorizedSchemas := Some schemas;
     persistentSyncs := persistentSyncs st;
     onData := onData st |}.

Definition with_components (d : EntityData) (comps : gmap string jsval) : EntityData :=
  {| networkId := networkId d; fields := fields d; components := comps |}.

Definition sanitizeMessageData (w : World) (st : State) (template : string) (d : EntityData)
    : outcome (EntityData * State) :=
  let schemas := schemas_in_effect w st in
  let nonAuthorizedIndices := schemas !! template in
  run comps ← map_fold (sanitize_slot nonAuthorizedIndices) (Ok (components d)) (components d);
  Ok (with_components d comps, with_schemas st schemas).

(** ** Entity metadata resolver *)

(** The three ways the resolver returns. *)
Inductive Resolved :=
  | Found (entityMetadata : EntityMetadata)
  | ReturnedUndefined
  | ReturnedNull.

Definition nonempty (s : string) : bool := negb (String.eqb s "").

Definition getPendingOrExistingEntityMetadata (w : World) (id : string) : Resolved :=
  match getPendingDataForNetworkId w !! id with
  | Some pendingData =>
      match Pending.owner pendingData with
      | Some owner =>
          if nonempty owner && negb (bool_decide (is_Some (presence w !! owner)))
          then ReturnedUndefined
          else Found {| template := Pending.template pendingData;
                        creator := Pending.creator pendingData |}
      | None => Found {| template := Pending.template pendingData;
                         creator := Pending.creator pendingData |}
      end
  | None =>
      match getEntity w !! id with
      | None => ReturnedNull
      | Some entity => Found {| template := getNetworkedTemplate entity;
                                creator := getCreator entity |}
      end
  end.

(** Returns the flag and the payload, which it may have sanitized. *)
Definition authorizeOrSanitizeMessageData (w : World) (st : State)
    (d : EntityData) (sender : string) (senderPermissions : Permissions)
    : outcome (bool * EntityData * State) :=
  match getPendingOrExistingEntityMetadata w (networkId d) with
  | Found entityMetadata =>
      if authorizeEntityManipulation entityMetadata sender senderPermissions
      then Ok (true, d, st)
      else run (d', st') ← sanitizeMessageData w st (template entityMetadata) d;
           Ok (true, d', st')
  | ReturnedUndefined | ReturnedNull => Ok (false, d, st)
  end.

(** ** Persistent-sync stash *)

(** [Object.assign(currentData, entityData)] followed by the assignment of
    the merged components: fields of [entityData] win, the components
    object of [currentData] receives the slots of [entityData]. *)
Definition assign (currentData entityData : EntityData) : EntityData :=
  {| networkId := networkId entityData;
     fields := fields entityData ∪ fields currentData;
     components := components entityData ∪ components currentData |}.

Definition with_syncs (st : State) (syncs : gmap string UpdateMessage) : State :=
  {| nonAuthorizedSchemas := nonAuthorizedSchemas st;
     persistentSyncs := syncs;
     onData := onData st |}.

(** What a read [persistentSyncs[id]] yields: [persistentSyncs] is a plain
    object, so a name of [Object.prototype] with no entry of its own reads
    as the inherited member, which is truthy. *)
Inductive Looked :=
  | OwnEntry (stashed : UpdateMessage)
  | InheritedMember
  | NotFound.

Definition read_persistentSyncs (syncs : gmap string UpdateMessage) (id : string) : Looked :=
  match syncs !! id with
  | Some stashed => OwnEntry stashed
  | None =>
      if bool_decide (id ∈ Object_prototype_members) then InheritedMember else NotFound
  end.

(** [Object.assign] writes a key ["__proto__"] of its source through the
    setter of [Object.prototype] unless the target has an own property of
    that name. *)
Definition assign_sets_prototype (currentData entityData : EntityData) : bool :=
  (bool_decide (is_Some (fields entityData !! "__proto__"))
   && negb (bool_decide (is_Some (fields currentData !! "__proto__"))))
  || (bool_decide (is_Some (components entityData !! "__proto__"))
      && negb (bool_decide (is_Some (components currentData !! "__proto__")))).

(** On an inherited member the else branch reads its [data], which is
    [undefined], and then [currentData.components] raises. *)
Definition stashPersistentSync (st : State) (message : Message) (entityData : EntityData)
    : outcome State :=
  match read_persistentSyncs (persistentSyncs st) (networkId entityData) with
  | NotFound =>
      Ok (with_syncs st (<[networkId entityData :=
        {| data := entityData;
           u_clientId := clientId message;
           u_from_session_id := from_session_id message |}]> (persistentSyncs st)))
  | OwnEntry current =>
      if assign_sets_prototype (data current) entityData then Unmodelled
      else
        Ok (with_syncs st (<[networkId entityData :=
          {| data := assign (data current) entityData;
             u_clientId := u_clientId current;
             u_from_session_id := u_from_session_id current |}]> (persistentSyncs st)))
  | InheritedMember => TypeError
  end.

(** ** Message gate *)

Definition materialized (w : World) (id : string) : bool :=
  bool_decide (is_Some (getEntity w !! id)).

(** The loop over [message.data.d]: returns the list with dropped slots
    set to [null], and the two flags. *)
Fixpoint bulk_loop (w : World) (message : Message) (senderPermissions : Permissions)
    (d : list (option EntityData)) (sanitizedAny stashedAny : bool) (st : State)
    : outcome (list (option EntityData) * bool * bool * State) :=
  match d with
  | [] => Ok ([], sanitizedAny, stashedAny, st)
  | None :: _ => TypeError
  | Some entityData :: rest =>
      if persistent entityData && negb (materialized w (networkId entityData)) then
        run st1 ← stashPersistentSync st message entityData;
        run (rest', sanitizedAny', stashedAny', st') ←
          bulk_loop w message senderPermissions rest sanitizedAny true st1;
        Ok (None :: rest', sanitizedAny', stashedAny', st')
      else
        run (authorizedOrSanitized, entityData', st1) ←
          authorizeOrSanitizeMessageData w st entityData (from_session_id message) senderPermissions;
        if authorizedOrSanitized then
          run (rest', sanitizedAny', stashedAny', st') ←
            bulk_loop w message senderPermissions rest sanitizedAny stashedAny st1;
          Ok (Some entityData' :: rest', sanitizedAny', stashedAny', st')
        else
          run (rest', sanitizedAny', stashedAny', st') ←
            bulk_loop w message senderPermissions rest true stashedAny st1;
          Ok (None :: rest', sanitizedAny', stashedAny', st')
  end.

Definition first_sync_creation (message : Message) : bool :=
  match body message with
  | Update d => isFirstSync d && negb (persistent d)
  | _ => false
  end.

Definition as_update (message : Message) (d : EntityData) : UpdateMessage :=
  {| data := d; u_clientId := clientId message; u_from_session_id := from_session_id message |}.

(** [persistentSyncs[id] = message]: an ordinary write, except under the
    name ["__proto__"] when the object has no own property of that name. *)
Definition store_sync (st : State) (id : string) (stashed : UpdateMessage) : outcome State :=
  if bool_decide (id = "__proto__")
     && negb (bool_decide (is_Some (persistentSyncs st !! "__proto__")))
  then Unmodelled
  else Ok (with_syncs st (<[id := stashed]> (persistentSyncs st))).

Definition authorizeOrSanitizeMessage (w : World) (st : State) (message : Message)
    : outcome (Reply * State) :=
  if first_sync_creation message then Ok (Forward message, st)
  else
    match presence w !! from_session_id message with
    | None => Ok (emptyObject, st)
    | Some senderPermissions =>
        match body message with
        | UpdateMulti d =>
            run (d', sanitizedAny, stashedAny, st') ←
              bulk_loop w message senderPermissions d false false st;
            let d'' := if sanitizedAny || stashedAny
                       then filter (λ x, is_Some x) d' else d' in
            Ok (Forward (with_body message (UpdateMulti d'')), st')
        | Update d =>
            if persistent d && negb (materialized w (networkId d)) then
              run st' ← store_sync st (networkId d) (as_update message d);
              Ok (emptyObject, st')
            else
              run (authorizedOrSanitized, d', st') ←
                authorizeOrSanitizeMessageData w st d (from_session_id message) senderPermissions;
              if authorizedOrSanitized
              then Ok (Forward (with_body message (Update d')), st')
              else Ok (emptyObject, st')
        | Remove d =>
            match getPendingOrExistingEntityMetadata w (networkId d) with
            | Found entityMetadata =>
                if authorizeEntityManipulation entityMetadata (from_session_id message) senderPermissions
                then Ok (Forward message, st)
                else Ok (emptyObject, st)
            | ReturnedUndefined | ReturnedNull => Ok (emptyObject, st)
            end
        | OtherKind _ _ => Ok (Forward message, st)
        end
    end.

(** The gate run on a member of [Object.prototype], as a replay under such
    a name does: [dataType] and [from_session_id] read as [undefined], so the
    first-sync test fails and the presence directory is asked for the key
    ["undefined"]; without an entry the answer is [emptyObject], with one no
    branch on [dataType] applies and the member itself is returned. *)
Definition authorizeOrSanitizeInherited (w : World) (member : string) : Reply :=
  match presence w !! "undefined" with
  | None => emptyObject
  | Some _ => ForwardInherited member
  end.

Definition applyPersistentSync (w : World) (st : State) (id : string) : outcome State :=
  match read_persistentSyncs (persistentSyncs st) id with
  | NotFound => Ok st
  | OwnEntry stashed =>
      run (reply, st') ← authorizeOrSanitizeMessage w st (as_message stashed);
      Ok {| nonAuthorizedSchemas := nonAuthorizedSchemas st';
            persistentSyncs := delete id (persistentSyncs st');
            onData := onData st' ++ [(reply, PHOENIX_RELIABLE_NAF)] |}
  | InheritedMember =>
      Ok {| nonAuthorizedSchemas := nonAuthorizedSchemas st;
            persistentSyncs := delete id (persistentSyncs st);
            onData := onData st
                      ++ [(authorizeOrSanitizeInherited w id, PHOENIX_RELIABLE_NAF)] |}
  end.

(** ** What the local user may do with a scene element *)

(** An element as [canMove] and its siblings read it: [tags] is the
    [tags] component, if the element has one, as the truth value of its
    [data.holdableButton]; [media_loader] is the ["media-loader"] component,
    if it has one, as the truth value of its [data.locked]. *)
Record Element := {
  tags : option bool;
  media_loader : option bool
}.

Definition isHoldableButton (el : Element) : bool := default false (tags el).
Definition isMedia (el : Element) : bool := bool_decide (is_Some (media_loader el)).
Definition isLocked (el : Element) : bool := default false (media_loader el).

(** [hubChannelCan] stands for [window.APP.hubChannel.can]. *)
Definition canMove (hubChannelCan : string → bool) (el : Element) : bool :=
  isHoldableButton el
  || (isMedia el && hubChannelCan "spawn_and_move_media" && negb (isLocked el)).

Definition canCloneOrSnapshot (hubChannelCan : string → bool) (el : Element) : bool :=
  isHoldableButton el || (isMedia el && hubChannelCan "spawn_and_move_media").

Definition showHoverEffect (hubChannelCan : string → bool) (el : Element) : bool :=
  isMedia el && canMove hubChannelCan el.

(** ** Scene graph helpers *)

(** A node as [findNode] and [parallelTraverse] see it: its identity and
    its [children] property, which may be missing. *)
#[local] Unset Elimination Schemes.
Inductive SceneNode :=
  | Node3D (uuid : N) (children : option (list SceneNode)).
#[local] Set Elimination Schemes.

Definition uuid (n : SceneNode) : N := match n with Node3D u _ => u end.
Definition children (n : SceneNode) : option (list SceneNode) :=
  match n with Node3D _ c => c end.

Fixpoint node_size (n : SceneNode) : nat :=
  match n with
  | Node3D _ c =>
      S (match c with
         | None => 0
         | Some l =>
             (fix sizes (l : list SceneNode) : nat :=
                match l with
                | [] => 0
                | x :: r => node_size x + sizes r
                end) l
         end)
  end.

(** The loop of [findNode] over the queue [nodes]; [None] when the fuel
    runs out, [Some None] for [return null]. *)
Fixpoint findNode_loop (pred : SceneNode → bool) (fuel : nat) (nodes : list SceneNode)
    : option (option SceneNode) :=
  match fuel with
  | O => None
  | S fuel' =>
      match nodes with
      | [] => Some None
      | node :: rest =>
          if pred node then Some (Some node)
          else
            match children node with
            | Some kids => findNode_loop pred fuel' (rest ++ kids)%list
            | None => findNode_loop pred fuel' rest
            end
      end
  end.

Definition findNode (root : SceneNode) (pred : SceneNode → bool) : option (option SceneNode) :=
  findNode_loop pred (S (node_size root)) [root].

(** An object as [isChildOf] sees it: its identity and its [parent] link,
    which is [null] on a [Root]. *)
Inductive Object3D :=
  | Root (id : N)
  | Child (id : N) (up : Object3D).

Definition object_id (o : Object3D) : N :=
  match o with Root i | Child i _ => i end.

Definition parent (o : Object3D) : option Object3D :=
  match o with Root _ => None | Child _ up => Some up end.

(** [node === parent], on objects and [null]. *)
Definition same_object (a b : option Object3D) : bool :=
  match a, b with
  | None, None => true
  | Some x, Some y => (object_id x =? object_id y)%N
  | _, _ => false
  end.

(** The body of the do-while loop, entered with a [node] that is an object. *)
Fixpoint isChildOf_loop (node : Object3D) (candidate : option Object3D) : bool :=
  if same_object (Some node) candidate then true
  else
    match node with
    | Root _ => false
    | Child _ up => isChildOf_loop up candidate
    end.

(** The first turn runs with [node = obj.parent] unchecked: on [null] it
    compares and then reads [null.parent]. *)
Definition isChildOf (obj : Object3D) (candidate : option Object3D) : outcome bool :=
  match parent obj with
  | None => if same_object None candidate then Ok true else TypeError
  | Some node => Ok (isChildOf_loop node candidate)
  end.

(** The loop of [parallelTraverse] over the children of [a] from position
    [i] on, [visit] being the recursive call: [b.children[i]] raises when
    [b] or [b.children] is [undefined], and is [undefined] past the end. *)
Section each_child.
Variable visit : SceneNode → option SceneNode → outcome (list (SceneNode * option SceneNode)).

Fixpoint each_child (b : option SceneNode) (kids : list SceneNode) (i : nat)
    : outcome (list (SceneNode * option SceneNode)) :=
  match kids with
  | [] => Ok []
  | kid :: more =>
      match b with
      | Some (Node3D _ (Some bkids)) =>
          run first ← visit kid (bkids !! i);
          run others ← each_child b more (S i);
          Ok (first ++ others)%list
      | _ => TypeError
      end
  end.
End each_child.

(** [parallelTraverse(a, b, callback)], returning the calls made to
    [callback], in order; reading [a.children.length] raises when [a] has no
    [children]. *)
Fixpoint parallelTraverse (a : SceneNode) (b : option SceneNode)
    : outcome (list (SceneNode * option SceneNode)) :=
  match a with
  | Node3D u c =>
      match c with
      | None => TypeError
      | Some kids =>
          run calls ← each_child parallelTraverse b kids 0;
          Ok ((Node3D u c, b) :: calls)
      end
  end.

(** ** Notions used in the statements *)

(** The payload's slots after the loop, when the template has the safe
    indices [indices]. *)
Definition null_unsafe (indices : list string) (comps : gmap string jsval) : gmap string jsval :=
  map_imap (λ index v, Some (if bool_decide (index ∈ indices) then v else JNull)) comps.

(** The safe set [initializeNonAuthorizedSchemas] builds for one schema. *)
Definition safe_set (schema : Schema.t) : list string :=
  (λ nonAuthorizedComponent, pretty (indexForComponent nonAuthorizedComponent schema))
    <$> default [] (Schema.nonAuthorizedComponents schema).












(** ** Sample worlds and messages *)

Definition media_schema : Schema.t :=
  {| Schema.components :=
       [Bare "position"; Bare "rotation"; Property "media-loader" "src";
        Property "media-video" "time"; Bare "pinnable"];
     Schema.nonAuthorizedComponents :=
       Some [Property "media-video" "time"; Bare "missing"] |}.

Definition sample_world : World :=
  {| presence := {[ "alice" := ∅; "bob" := {[ "spawn_camera" := true ]} ]};
     getPendingDataForNetworkId := ∅;
     getEntity := {[ "n1" := {| getNetworkedTemplate := "#interactable-media";
                              getCreator := "alice" |} ]};
     schemaDict := {[ "#interactable-media" := media_schema ]} |}.

Definition sample_update : EntityData :=
  {| networkId := "n1";
     fields := {[ "owner" := JStr "bob" ]};
     components := {[ "0" := JObj 7; "3" := JNum 42; "9" := JBool true ]} |}.

Definition ghost_world : World :=
  {| presence := {[ "alice" := ∅ ]};
     getPendingDataForNetworkId :=
       {[ "p1" := {| Pending.template := "#interactable-media";
                     Pending.creator := "alice";
                     Pending.owner := Some "carol" |};
          "p2" := {| Pending.template := "#interactable-pen";
                     Pending.creator := "alice";
                     Pending.owner := Some "alice" |} ]};
     getEntity := {[ "n1" := {| getNetworkedTemplate := "#interactable-media";
                              getCreator := "alice" |} ]};
     schemaDict := ∅ |}.

Definition first_sync_message : Message :=
  {| body := Update {| networkId := "n9";
                       fields := {[ "isFirstSync" := JBool true ]};
                       components := {[ "0" := JObj 1 ]} |};
     clientId := "mallory";
     from_session_id := "mallory" |}.

Definition bulk_world : World :=
  {| presence := {[ "alice" := ∅; "bob" := {[ "spawn_camera" := true ]}; "dave" := ∅ ]};
     getPendingDataForNetworkId := ∅;
     getEntity := {[ "n1" := {| getNetworkedTemplate := "#interactable-media";
                              getCreator := "alice" |};
                     "n3" := {| getNetworkedTemplate := "#interactable-camera";
                              getCreator := "alice" |} ]};
     schemaDict := {[ "#interactable-media" := media_schema ]} |}.

Definition entry (id : string) (flags : gmap string jsval) : EntityData :=
  {| networkId := id; fields := flags;
     components := {[ "0" := JObj 7; "3" := JNum 42 ]} |}.


Definition persistent_entry : EntityData := entry "n2" {[ "persistent" := JBool true ]}.

Definition persistent_update : Message :=
  {| body := Update persistent_entry; clientId := "bob"; from_session_id := "bob" |}.

Definition stashed_state : State :=
  with_syncs initial {[ "n2" := as_update persistent_update persistent_entry ]}.

(** [bulk_world] once the scene object ["n2"] has been created. *)
Definition replay_world : World :=
  {| presence := presence bulk_world;
     getPendingDataForNetworkId := ∅;
     getEntity := <[ "n2" := {| getNetworkedTemplate := "#interactable-camera";
                                getCreator := "alice" |} ]> (getEntity bulk_world);
     schemaDict := schemaDict bulk_world |}.



Definition update_A : EntityData :=
  {| networkId := "n2";
     fields := {[ "persistent" := JBool true; "lastOwnerTime" := JNum 1 ]};
     components := {[ "0" := JObj 7 ]} |}.

Definition update_B : EntityData :=
  {| networkId := "n2";
     fields := {[ "persistent" := JBool true; "lastOwnerTime" := JNum 2 ]};
     components := {[ "1" := JNum 5 ]} |}.

Definition message_A : Message :=
  {| body := Update update_A; clientId := "bob"; from_session_id := "bob" |}.

Definition message_B : Message :=
  {| body := Update update_B; clientId := "bob"; from_session_id := "bob" |}.



(** ** Further notions and samples *)


(** The nodes of the trees of a forest, each tree in preorder. *)
Fixpoint nodes_of (n : SceneNode) : list SceneNode :=
  match n with
  | Node3D u c =>
      Node3D u c ::
      match c with
      | None => []
      | Some l =>
          (fix all (l : list SceneNode) : list SceneNode :=
             match l with
             | [] => []
             | x :: r => (nodes_of x ++ all r)%list
             end) l
      end
  end.

Definition forest_nodes (l : list SceneNode) : list SceneNode := l ≫= nodes_of.

Fixpoint forest_size (l : list SceneNode) : nat :=
  match l with
  | [] => 0
  | x :: r => node_size x + forest_size r
  end.

(** The children of the nodes of [l], in order: the next level down. *)
Definition child_level (l : list SceneNode) : list SceneNode :=
  l ≫= (λ n, default [] (children n)).

(** The first [depth] levels below and including [l], one after the other. *)
Fixpoint levels (depth : nat) (l : list SceneNode) : list SceneNode :=
  match depth with
  | O => []
  | S k => (l ++ levels k (child_level l))%list
  end.

(** The nodes of a tree level by level, each level left to right. *)
Definition breadth_first (root : SceneNode) : list SceneNode :=
  levels (node_size root) [root].

(** The ids of the objects above [o], nearest first. *)
Fixpoint ancestors (o : Object3D) : list N :=
  match o with
  | Root _ => []
  | Child _ up => object_id up :: ancestors up
  end.

Definition locked_video : Element := {| tags := None; media_loader := Some true |}.

Definition sample_tree : SceneNode :=
  Node3D 1 (Some [Node3D 2 (Some [Node3D 4 None]); Node3D 3 (Some [])]).

Definition sample_chain : Object3D := Child 4 (Child 2 (Root 1)).

Definition shadowing_update : EntityData :=
  {| networkId := "n1"; fields := ∅;
     components := {[ "0" := JObj 7; "hasOwnProperty" := JNum 1 ]} |}.

Definition smuggled_update : EntityData :=
  {| networkId := "n1"; fields := ∅;
     components := {[ "-1" := JStr "anything"; "0" := JObj 7 ]} |}.

(** A world whose only schema lists no non-authorized components. *)
Definition plain_world : World :=
  {| presence := ∅;
     getPendingDataForNetworkId := ∅;
     getEntity := ∅;
     schemaDict := {[ "#static-media" :=
                        {| Schema.components := [Bare "position"];
                           Schema.nonAuthorizedComponents := None |} ]} |}.

(** Two trees of one shape: every node has a [children] array, of the same
    length on both sides, and the children are of one shape pairwise. *)
#[local] Unset Elimination Schemes.
Inductive same_shape : SceneNode → SceneNode → Prop :=
  | same_shape_node u v ka kb :
      Forall2 same_shape ka kb →
      same_shape (Node3D u (Some ka)) (Node3D v (Some kb)).
#[local] Set Elimination Schemes.

Definition sample_clone : SceneNode :=
  Node3D 11 (Some [Node3D 12 (Some [Node3D 14 (Some [])]); Node3D 13 (Some [])]).

Definition sample_source : SceneNode :=
  Node3D 1 (Some [Node3D 2 (Some [Node3D 4 (Some [])]); Node3D 3 (Some [])]).

(** * Properties *)

(** ** Strings *)

Lemma starts_with_app (p l : list Ascii.ascii) :
  starts_with p l = true ↔ ∃ r, l = (p ++ r)%list.
Proof.
  revert l; induction p as [|a p IH]; intros l; simpl.
  - split; [intros _; by exists l | done].
  - destruct l as [|b l].
    + split; [done | intros [r Hr]; discriminate Hr].
    + rewrite andb_true_iff, IH, Ascii.eqb_eq. split.
      * intros [-> [r ->]]. by exists r.
      * intros [r Hr]. injection Hr as -> ->. eauto.
Qed.

Lemma list_ascii_of_string_app (a b : string) :
  String.list_ascii_of_string (a +:+ b)
  = (String.list_ascii_of_string a ++ String.list_ascii_of_string b)%list.
Proof. induction a as [|c a IH]; simpl; [done | by rewrite IH]. Qed.

(** [endsWith] holds exactly of the strings that are some prefix followed by
    the suffix. *)
Lemma endsWith_spec (s suffix : string) :
  endsWith s suffix = true ↔ ∃ pre, s = pre +:+ suffix.
Proof.
  unfold endsWith. rewrite starts_with_app. split.
  - intros [r Hr]. exists (String.string_of_list_ascii (reverse r)).
    apply (f_equal reverse) in Hr.
    rewrite reverse_involutive, reverse_app, reverse_involutive in Hr.
    rewrite <- (String.string_of_list_ascii_of_string s), Hr.
    rewrite <- (String.string_of_list_ascii_of_string (_ +:+ suffix)).
    by rewrite list_ascii_of_string_app, String.list_ascii_of_string_of_list_ascii.
  - intros [pre ->]. exists (reverse (String.list_ascii_of_string pre)).
    by rewrite list_ascii_of_string_app, reverse_app.
Qed.

Lemma starts_with_cons_inv (a : Ascii.ascii) (p l : list Ascii.ascii) :
  starts_with (a :: p) l = true → ∃ l', l = a :: l' ∧ starts_with p l' = true.
Proof.
  destruct l as [|b l]; simpl; [done |].
  rewrite andb_true_iff, Ascii.eqb_eq. intros [-> H]. eauto.
Qed.

(** Two suffixes whose last characters, or last but one, differ cannot both
    end the same string. *)
Ltac reversed_literal H :=
  unfold endsWith in H;
  match type of H with
  | starts_with (reverse ?c) _ = _ =>
      let c' := eval vm_compute in (reverse c) in change (reverse c) with c' in H
  end.

Ltac suffix_clash H1 H2 :=
  reversed_literal H1; reversed_literal H2;
  apply starts_with_cons_inv in H1 as (l1 & E1 & H1);
  apply starts_with_cons_inv in H2 as (l2 & E2 & H2);
  rewrite E1 in E2;
  first
    [ discriminate E2
    | injection E2 as E2; subst l2;
      apply starts_with_cons_inv in H1 as (l1' & E1' & H1);
      apply starts_with_cons_inv in H2 as (l2' & E2' & H2);
      rewrite E1' in E2'; discriminate E2' ].

Lemma avatar_not_media t : endsWith t "-avatar" = true → endsWith t "-media" = false.
Proof. intros H1. destruct (endsWith t "-media") eqn:H2; [suffix_clash H1 H2 | done]. Qed.

Lemma avatar_not_camera t : endsWith t "-avatar" = true → endsWith t "-camera" = false.
Proof. intros H1. destruct (endsWith t "-camera") eqn:H2; [suffix_clash H1 H2 | done]. Qed.

Lemma media_not_camera t : endsWith t "-media" = true → endsWith t "-camera" = false.
Proof. intros H1. destruct (endsWith t "-camera") eqn:H2; [suffix_clash H1 H2 | done]. Qed.

Lemma pen_not_earlier t :
  endsWith t "-pen" = true →
  endsWith t "-avatar" = false ∧ endsWith t "-media" = false ∧ endsWith t "-camera" = false.
Proof.
  intros H1. repeat split.
  - destruct (endsWith t "-avatar") eqn:H2; [suffix_clash H1 H2 | done].
  - destruct (endsWith t "-media") eqn:H2; [suffix_clash H1 H2 | done].
  - destruct (endsWith t "-camera") eqn:H2; [suffix_clash H1 H2 | done].
Qed.

Lemma drawing_not_earlier t :
  endsWith t "-drawing" = true →
  endsWith t "-avatar" = false ∧ endsWith t "-media" = false ∧ endsWith t "-camera" = false.
Proof.
  intros H1. repeat split.
  - destruct (endsWith t "-avatar") eqn:H2; [suffix_clash H1 H2 | done].
  - destruct (endsWith t "-media") eqn:H2; [suffix_clash H1 H2 | done].
  - destruct (endsWith t "-camera") eqn:H2; [suffix_clash H1 H2 | done].
Qed.

(** ** Permission policy *)

(** C2.  The policy answers true exactly in the rows of the rule table:
    ["-avatar"] for the creator; ["-media"], ["-camera"], ["-pen"] or
    ["-drawing"] for the creator or a holder of the row's capability; and a
    template with none of the suffixes is denied whoever asks. *)
Theorem authorizeEntityManipulation_rule_table
    (entityMetadata : EntityMetadata) (sender : string) (senderPermissions : Permissions) :
  let t := template entityMetadata in
  let isCreator := sender = creator entityMetadata in
  (authorizeEntityManipulation entityMetadata sender senderPermissions = true ↔
     (endsWith t "-avatar" = true ∧ isCreator)
     ∨ (endsWith t "-media" = true
        ∧ (isCreator ∨ can senderPermissions "spawn_and_move_media" = true))
     ∨ (endsWith t "-camera" = true
        ∧ (isCreator ∨ can senderPermissions "spawn_camera" = true))
     ∨ ((endsWith t "-pen" = true ∨ endsWith t "-drawing" = true)
        ∧ (isCreator ∨ can senderPermissions "spawn_drawing" = true)))
  ∧ (endsWith t "-avatar" = false → endsWith t "-media" = false →
     endsWith t "-camera" = false → endsWith t "-pen" = false →
     endsWith t "-drawing" = false →
     authorizeEntityManipulation entityMetadata sender senderPermissions = false).
Proof.
  intros t isCreator. subst isCreator. unfold authorizeEntityManipulation. fold t.
  split.
  - destruct (endsWith t "-avatar") eqn:Ha.
    { rewrite String.eqb_eq, (avatar_not_media _ Ha), (avatar_not_camera _ Ha).
      split; [by left | ].
      intros [[_ ?]|[[? _]|[[? _]|[[Hp|Hd] _]]]]; try done.
      - apply pen_not_earlier in Hp as (? & _). congruence.
      - apply drawing_not_earlier in Hd as (? & _). congruence. }
    destruct (endsWith t "-media") eqn:Hm.
    { rewrite orb_true_iff, String.eqb_eq, (media_not_camera _ Hm).
      split; [by right; left | ].
      intros [[? _]|[[_ ?]|[[? _]|[[Hp|Hd] _]]]]; try done.
      - apply pen_not_earlier in Hp as (_ & ? & _). congruence.
      - apply drawing_not_earlier in Hd as (_ & ? & _). congruence. }
    destruct (endsWith t "-camera") eqn:Hc.
    { rewrite orb_true_iff, String.eqb_eq.
      split; [by right; right; left | ].
      intros [[? _]|[[? _]|[[_ ?]|[[Hp|Hd] _]]]]; try done.
      - apply pen_not_earlier in Hp as (_ & _ & ?). congruence.
      - apply drawing_not_earlier in Hd as (_ & _ & ?). congruence. }
    destruct (endsWith t "-pen" || endsWith t "-drawing") eqn:Hpd.
    { rewrite orb_true_iff, String.eqb_eq. apply orb_true_iff in Hpd.
      split; [by right; right; right | ].
      intros [[? _]|[[? _]|[[? _]|[_ ?]]]]; done. }
    apply orb_false_iff in Hpd as [Hp Hd].
    split; [done | ].
    intros [[? _]|[[? _]|[[? _]|[[?|?] _]]]]; congruence.
  - intros -> -> -> -> ->. done.
Qed.

Lemma authorizeEntityManipulation_rule_table_witness :
  authorizeEntityManipulation {| template := "scene-button"; creator := "alice" |} "alice"
    {[ "spawn_camera" := true ]} = false.
Proof.
  apply (authorizeEntityManipulation_rule_table
           {| template := "scene-button"; creator := "alice" |} "alice"
           {[ "spawn_camera" := true ]}); reflexivity.
Defined.

(** ** Field sanitizer *)

Lemma lookup_null_unsafe indices (comps : gmap string jsval) k :
  null_unsafe indices comps !! k
  = (λ v, if bool_decide (k ∈ indices) then v else JNull) <$> comps !! k.
Proof. unfold null_unsafe. rewrite map_lookup_imap. by destruct (comps !! k). Qed.

Lemma sanitize_loop_registered indices (base m : gmap string jsval) :
  base !! "hasOwnProperty" = None → m !! "hasOwnProperty" = None →
  ∃ r, map_fold (sanitize_slot (Some indices)) (Ok base) m = Ok r
       ∧ ∀ k, r !! k = if bool_decide (is_Some (m !! k) ∧ k ∉ indices)
                       then Some JNull else base !! k.
Proof.
  intros Hbase. revert m.
  apply (map_fold_weak_ind (λ res (m : gmap string jsval),
           m !! "hasOwnProperty" = None →
           ∃ r, res = Ok r ∧ ∀ k,
             r !! k = if bool_decide (is_Some (m !! k) ∧ k ∉ indices)
                      then Some JNull else base !! k)).
  - intros _. exists base. split; [done |]. intros k. rewrite lookup_empty.
    rewrite bool_decide_eq_false_2; [done |]. intros [[? ?] _]. done.
  - intros i x m' res Hi IH Hnew.
    apply lookup_insert_None in Hnew as [Hm' Hi'].
    destruct (IH Hm') as (r & -> & Hr). cbn [sanitize_slot].
    assert (r !! "hasOwnProperty" = None) as Hclean.
    { rewrite Hr, Hm', Hbase. rewrite bool_decide_eq_false_2; [done |].
      intros [[? ?] _]. done. }
    rewrite (bool_decide_eq_false_2 (is_Some _)) by (rewrite Hclean; by intros [? ?]).
    destruct (decide (i ∈ indices)) as [Hin|Hin].
    + rewrite bool_decide_eq_true_2 by done. exists r. split; [done |].
      intros k. rewrite Hr. destruct (decide (k = i)) as [->|Hne].
      * rewrite Hi, lookup_insert_eq.
        rewrite !bool_decide_eq_false_2; [done | | ]; intros [[? ?] ?]; done.
      * rewrite lookup_insert_ne by done. done.
    + rewrite bool_decide_eq_false_2 by done. eexists. split; [done |].
      intros k. destruct (decide (k = i)) as [->|Hne].
      * rewrite !lookup_insert_eq. rewrite bool_decide_eq_true_2; [done |].
        split; [by eexists | done].
      * rewrite !lookup_insert_ne by done. apply Hr.
Qed.

Lemma sanitize_loop_unregistered (base m : gmap string jsval) :
  map_fold (sanitize_slot None) (Ok base) m
  = if bool_decide (m = ∅) then Ok base else TypeError.
Proof.
  revert m. apply (map_fold_weak_ind (λ res (m : gmap string jsval),
           res = if bool_decide (m = ∅) then Ok base else TypeError)).
  - by rewrite bool_decide_eq_true_2.
  - intros i x m' res Hi ->.
    rewrite (bool_decide_eq_false_2 (<[i:=x]> m' = ∅)) by apply insert_non_empty.
    destruct (bool_decide (m' = ∅)); cbn [sanitize_slot]; [| done].
    by destruct (bool_decide (is_Some (base !! "hasOwnProperty"))).
Qed.

Lemma sanitize_loop_shadowed o (base m : gmap string jsval) :
  is_Some (base !! "hasOwnProperty") →
  map_fold (sanitize_slot o) (Ok base) m
  = if bool_decide (m = ∅) then Ok base else TypeError.
Proof.
  intros Hbase. revert m. apply (map_fold_weak_ind (λ res (m : gmap string jsval),
           res = if bool_decide (m = ∅) then Ok base else TypeError)).
  - by rewrite bool_decide_eq_true_2.
  - intros i x m' res Hi ->.
    rewrite (bool_decide_eq_false_2 (<[i:=x]> m' = ∅)) by apply insert_non_empty.
    destruct (bool_decide (m' = ∅)); cbn [sanitize_slot]; [| done].
    by rewrite bool_decide_eq_true_2.
Qed.

Lemma sanitize_loop_closed indices (comps : gmap string jsval) :
  comps !! "hasOwnProperty" = None →
  map_fold (sanitize_slot (Some indices)) (Ok comps) comps = Ok (null_unsafe indices comps).
Proof.
  intros Hclean.
  destruct (sanitize_loop_registered indices comps comps Hclean Hclean) as (r & -> & Hr).
  f_equal. apply map_eq. intros k. rewrite Hr, lookup_null_unsafe.
  destruct (comps !! k) as [v|] eqn:Hk; simpl.
  - destruct (decide (k ∈ indices)).
    + rewrite (bool_decide_eq_false_2 (_ ∧ _)) by (intros [_ ?]; done).
      by rewrite bool_decide_eq_true_2.
    + rewrite (bool_decide_eq_true_2 (_ ∧ _)) by (split; [by eexists | done]).
      by rewrite bool_decide_eq_false_2.
  - done.
Qed.

Lemma with_components_same d : with_components d (components d) = d.
Proof. by destruct d. Qed.

Lemma sanitizeMessageData_registered w st t d indices :
  schemas_in_effect w st !! t = Some indices →
  components d !! "hasOwnProperty" = None →
  sanitizeMessageData w st t d
  = Ok (with_components d (null_unsafe indices (components d)),
        with_schemas st (schemas_in_effect w st)).
Proof.
  intros H Hclean. unfold sanitizeMessageData. rewrite H.
  by rewrite sanitize_loop_closed.
Qed.

Lemma sanitizeMessageData_unregistered w st t d :
  schemas_in_effect w st !! t = None →
  sanitizeMessageData w st t d
  = if bool_decide (components d = ∅)
    then Ok (d, with_schemas st (schemas_in_effect w st)) else TypeError.
Proof.
  intros H. unfold sanitizeMessageData. rewrite H, sanitize_loop_unregistered.
  destruct (bool_decide (components d = ∅)); [| done].
  by rewrite with_components_same.
Qed.

(** A payload with an own slot ["hasOwnProperty"] makes the sanitizer raise,
    whatever the template. *)
Lemma sanitizeMessageData_shadowed w st t d :
  is_Some (components d !! "hasOwnProperty") →
  sanitizeMessageData w st t d = TypeError.
Proof.
  intros H. unfold sanitizeMessageData. rewrite sanitize_loop_shadowed by done.
  rewrite bool_decide_eq_false_2; [done |]. intros He. rewrite He in H.
  rewrite lookup_empty in H. by destruct H.
Qed.

Lemma schemas_in_effect_cached w w' st :
  schemas_in_effect w' (with_schemas st (schemas_in_effect w st)) = schemas_in_effect w st.
Proof. done. Qed.

Lemma with_schemas_idemp st schemas :
  with_schemas (with_schemas st schemas) schemas = with_schemas st schemas.
Proof. done. Qed.

Lemma null_unsafe_idemp indices (comps : gmap string jsval) :
  null_unsafe indices (null_unsafe indices comps) = null_unsafe indices comps.
Proof.
  apply map_eq. intros k. rewrite !lookup_null_unsafe.
  destruct (comps !! k); simpl; [| done]. by destruct (bool_decide (k ∈ indices)).
Qed.

Example schemas_ex :
  schemas_in_effect sample_world initial !! "#interactable-media" = Some ["3"; "-1"].
Proof. vm_compute. reflexivity. Qed.

Example sanitize_ex :
  sanitizeMessageData sample_world initial "#interactable-media" sample_update
  = Ok (with_components sample_update {[ "0" := JNull; "3" := JNum 42; "9" := JNull ]},
        with_schemas initial {[ "#interactable-media" := ["3"; "-1"] ]}).
Proof. by vm_compute. Qed.

Lemma findIndexFrom_spec {A} (p : A → bool) (l : list A) :
  ∀ i : Z,
    (findIndexFrom p l i = (-1)%Z ∧ ∀ x, x ∈ l → p x = false)
    ∨ ∃ (k : nat) x,
        findIndexFrom p l i = (i + Z.of_nat k)%Z ∧ l !! k = Some x ∧ p x = true
        ∧ ∀ j y, (j < k)%nat → l !! j = Some y → p y = false.
Proof.
  induction l as [|a l IH]; intros i; simpl.
  - left. split; [done |]. by intros x ?%elem_of_nil.
  - destruct (p a) eqn:Hp.
    + right. exists 0%nat, a. split_and!; [lia | done | done |]. intros j y Hj. lia.
    + destruct (IH (i + 1)%Z) as [[-> Hall]|(k & x & -> & Hk & Hx & Hbefore)].
      * left. split; [done |]. intros x [->|Hin]%elem_of_cons; auto.
      * right. exists (S k), x. split_and!; [lia | done | done |].
        intros [|j] y Hj; simpl; [by intros [= <-] |].
        apply Hbefore. lia.
Qed.

Lemma indexForComponent_spec (component : Descriptor) (schema : Schema.t) :
  (indexForComponent component schema = (-1)%Z
   ∧ component ∉ Schema.components schema)
  ∨ ∃ k : nat,
      indexForComponent component schema = Z.of_nat k
      ∧ Schema.components schema !! k = Some component
      ∧ ∀ j, (j < k)%nat → Schema.components schema !! j ≠ Some component.
Proof.
  unfold indexForComponent, findIndex.
  destruct component as [name|name prop].
  - match goal with |- context [findIndexFrom ?p ?l 0%Z] =>
      destruct (findIndexFrom_spec p l 0%Z) as [[-> Hall]|(k & x & -> & Hk & Hx & Hb)]
    end.
    + left. split; [done |]. intros Hin. apply Hall in Hin.
      by rewrite String.eqb_refl in Hin.
    + right. exists k. destruct x as [n|? ?]; [| done].
      apply String.eqb_eq in Hx as ->. split_and!; [lia | done |].
      intros j Hj Hsome. specialize (Hb _ _ Hj Hsome). simpl in Hb.
      by rewrite String.eqb_refl in Hb.
  - match goal with |- context [findIndexFrom ?p ?l 0%Z] =>
      destruct (findIndexFrom_spec p l 0%Z) as [[-> Hall]|(k & x & -> & Hk & Hx & Hb)]
    end.
    + left. split; [done |]. intros Hin. apply Hall in Hin.
      by rewrite !String.eqb_refl in Hin.
    + right. exists k. destruct x as [?|c p]; [done |].
      apply andb_true_iff in Hx as [->%String.eqb_eq ->%String.eqb_eq].
      split_and!; [lia | done |].
      intros j Hj Hsome. specialize (Hb _ _ Hj Hsome). simpl in Hb.
      by rewrite !String.eqb_refl in Hb.
Qed.

Lemma safe_set_lookup (dict : gmap string Schema.t) t :
  initializeNonAuthorizedSchemas dict !! t = safe_set <$> dict !! t.
Proof. unfold initializeNonAuthorizedSchemas. by rewrite lookup_fmap. Qed.

(** C3, amended.  For a template kind that has a schema entry and a payload
    with no slot named ["hasOwnProperty"], the sanitizer returns the payload
    it was given with exactly the slots that are present and outside the
    template's safe set overwritten by null; safe slots and absent slots are
    as before, and so are the other fields of the payload, the stash and
    the calls made to the runtime.  The safe set being built from the schema,
    the nulled slots include every present slot whose index is neither the
    position of a declared schema slot nor ["-1"]. *)
Theorem sanitizeMessageData_nulls_unsafe_slots
    (w : World) (st : State) (t : string) (d : EntityData)
    (dict : gmap string Schema.t) (schema : Schema.t) :
  schemas_in_effect w st = initializeNonAuthorizedSchemas dict →
  dict !! t = Some schema →
  components d !! "hasOwnProperty" = None →
  ∃ d' st',
    sanitizeMessageData w st t d = Ok (d', st')
    ∧ networkId d' = networkId d ∧ fields d' = fields d
    ∧ (∀ k, k ∈ safe_set schema → components d' !! k = components d !! k)
    ∧ (∀ k, components d !! k = None → components d' !! k = None)
    ∧ (∀ k, is_Some (components d !! k) → k ∉ safe_set schema →
            components d' !! k = Some JNull)
    ∧ (∀ k, is_Some (components d !! k) → k ≠ "-1" →
            (∀ i : nat, (i < List.length (Schema.components schema))%nat →
                        k ≠ pretty (Z.of_nat i)) →
            components d' !! k = Some JNull)
    ∧ persistentSyncs st' = persistentSyncs st ∧ onData st' = onData st.
Proof.
  intros Hdict Hs Hclean.
  assert (schemas_in_effect w st !! t = Some (safe_set schema)) as H.
  { by rewrite Hdict, safe_set_lookup, Hs. }
  rewrite (sanitizeMessageData_registered _ _ _ _ _ H Hclean).
  eexists _, _. split; [done |]. cbn [networkId fields components with_components
    persistentSyncs onData with_schemas].
  assert (∀ k, is_Some (components d !! k) → k ∉ safe_set schema →
               null_unsafe (safe_set schema) (components d) !! k = Some JNull) as Hnull.
  { intros k [v Hk] Hn. by rewrite lookup_null_unsafe, Hk, bool_decide_eq_false_2. }
  split_and!; [done | done | | | done | | done | done].
  - intros k Hk. rewrite lookup_null_unsafe, bool_decide_eq_true_2 by done.
    by destruct (components d !! k).
  - intros k Hk. by rewrite lookup_null_unsafe, Hk.
  - intros k Hk Hminus Hundeclared. apply Hnull; [done |].
    intros (c & -> & _)%list_elem_of_fmap.
    destruct (indexForComponent_spec c schema) as [[Hi _]|(i & Hi & Hlook & _)];
      rewrite Hi in *; [done |].
    eapply Hundeclared; [| done]. by eapply lookup_lt_Some.
Qed.

Lemma sanitizeMessageData_nulls_unsafe_slots_witness :
  ∃ d' st',
    sanitizeMessageData sample_world initial "#interactable-media" sample_update = Ok (d', st')
    ∧ networkId d' = "n1" ∧ fields d' = fields sample_update
    ∧ (∀ k, k ∈ safe_set media_schema → components d' !! k = components sample_update !! k)
    ∧ (∀ k, components sample_update !! k = None → components d' !! k = None)
    ∧ (∀ k, is_Some (components sample_update !! k) → k ∉ safe_set media_schema →
         components d' !! k = Some JNull)
    ∧ (∀ k, is_Some (components sample_update !! k) → k ≠ "-1" →
            (∀ i : nat, (i < List.length (Schema.components media_schema))%nat →
                        k ≠ pretty (Z.of_nat i)) →
            components d' !! k = Some JNull)
    ∧ persistentSyncs st' = ∅ ∧ onData st' = [].
Proof.
  apply (sanitizeMessageData_nulls_unsafe_slots
           sample_world initial "#interactable-media" sample_update
           (schemaDict sample_world) media_schema).
  - reflexivity.
  - by vm_compute.
  - by vm_compute.
Defined.

(** C3 as stated fails on a template kind without a schema entry: the
    lookup of its safe set yields [undefined], and the first slot of the
    payload raises instead of being overwritten.  It fails as well, for a
    template kind that has a schema entry, on a payload with a slot named
    ["hasOwnProperty"]: the call of [hasOwnProperty] finds that slot. *)
Lemma sanitizeMessageData_unregistered_template_raises :
  schemas_in_effect sample_world initial !! "ghost-media" = None
  ∧ components sample_update !! "0" = Some (JObj 7)
  ∧ sanitizeMessageData sample_world initial "ghost-media" sample_update = TypeError
  ∧ (¬ ∃ d' st', sanitizeMessageData sample_world initial "ghost-media" sample_update
                 = Ok (d', st'))
  ∧ schemas_in_effect sample_world initial !! "#interactable-media" = Some ["3"; "-1"]
  ∧ sanitizeMessageData sample_world initial "#interactable-media" shadowing_update
    = TypeError.
Proof.
  assert (sanitizeMessageData sample_world initial "ghost-media" sample_update = TypeError)
    as E by (by vm_compute).
  split; [by vm_compute |]. split; [by vm_compute |]. split; [done |].
  split; [| split; by vm_compute].
  intros (d' & st' & H). rewrite E in H. discriminate H.
Qed.

(** C9.  Sanitizing twice for the same template kind is sanitizing once:
    the second run, on the payload and module state the first run left,
    returns that payload and that state again (and when the first run
    raises there is no second). *)
Theorem sanitizeMessageData_idempotent
    (w w' : World) (st : State) (t : string) (d : EntityData) :
  sanitizeMessageData w st t d ≫= (λ r, sanitizeMessageData w' r.2 t r.1)
  = sanitizeMessageData w st t d.
Proof.
  destruct (components d !! "hasOwnProperty") as [v|] eqn:Hclean.
  { by rewrite sanitizeMessageData_shadowed by (by rewrite Hclean). }
  destruct (schemas_in_effect w st !! t) as [indices|] eqn:H.
  - rewrite (sanitizeMessageData_registered _ _ _ _ _ H Hclean). simpl.
    rewrite (sanitizeMessageData_registered _ _ _ _ indices).
    + simpl. rewrite schemas_in_effect_cached.
      unfold with_components; simpl. by rewrite null_unsafe_idemp.
    + by rewrite schemas_in_effect_cached.
    + simpl. by rewrite lookup_null_unsafe, Hclean.
  - rewrite (sanitizeMessageData_unregistered _ _ _ _ H).
    destruct (bool_decide (components d = ∅)) eqn:He; [| done]. simpl.
    rewrite sanitizeMessageData_unregistered by (by rewrite schemas_in_effect_cached).
    by rewrite He, schemas_in_effect_cached.
Qed.

(** ** Entity metadata resolver *)

(** C7.  The resolver is a total function with no raising outcome.  It
    yields absence when the pending record names an owner (a non-empty
    session id) without a presence entry, and when the network id has
    neither a pending record nor a materialized entity; in every other case
    it yields the template and creator, of the pending record if there is
    one and of the entity otherwise. *)
Theorem getPendingOrExistingEntityMetadata_absent_or_pair (w : World) (id : string) :
  (∀ pendingData owner,
     getPendingDataForNetworkId w !! id = Some pendingData →
     Pending.owner pendingData = Some owner → owner ≠ "" →
     presence w !! owner = None →
     getPendingOrExistingEntityMetadata w id = ReturnedUndefined)
  ∧ (getPendingDataForNetworkId w !! id = None → getEntity w !! id = None →
     getPendingOrExistingEntityMetadata w id = ReturnedNull)
  ∧ (∀ pendingData,
       getPendingDataForNetworkId w !! id = Some pendingData →
       (∀ owner, Pending.owner pendingData = Some owner → owner ≠ "" →
                 is_Some (presence w !! owner)) →
       getPendingOrExistingEntityMetadata w id
       = Found {| template := Pending.template pendingData;
                  creator := Pending.creator pendingData |})
  ∧ (∀ entity,
       getPendingDataForNetworkId w !! id = None → getEntity w !! id = Some entity →
       getPendingOrExistingEntityMetadata w id
       = Found {| template := getNetworkedTemplate entity; creator := getCreator entity |}).
Proof.
  unfold getPendingOrExistingEntityMetadata. repeat apply conj.
  - intros p o -> -> Ho Hp. unfold nonempty.
    rewrite (proj2 (String.eqb_neq o "")) by done. simpl.
    rewrite bool_decide_eq_false_2; [done |]. rewrite Hp. by intros [? ?].
  - by intros -> ->.
  - intros p -> Hp. destruct (Pending.owner p) as [o|]; [| done].
    unfold nonempty. destruct (String.eqb o "") eqn:Ho; [done |]. simpl.
    apply String.eqb_neq in Ho. by rewrite bool_decide_eq_true_2 by eauto.
  - by intros e -> ->.
Qed.

Lemma getPendingOrExistingEntityMetadata_absent_or_pair_witness :
  getPendingOrExistingEntityMetadata ghost_world "p1" = ReturnedUndefined
  ∧ getPendingOrExistingEntityMetadata ghost_world "zz" = ReturnedNull
  ∧ getPendingOrExistingEntityMetadata ghost_world "p2"
    = Found {| template := "#interactable-pen"; creator := "alice" |}
  ∧ getPendingOrExistingEntityMetadata ghost_world "n1"
    = Found {| template := "#interactable-media"; creator := "alice" |}.
Proof.
  split; [| split; [| split]].
  - apply (proj1 (getPendingOrExistingEntityMetadata_absent_or_pair ghost_world "p1")
      {| Pending.template := "#interactable-media"; Pending.creator := "alice";
         Pending.owner := Some "carol" |} "carol"); by vm_compute.
  - apply (getPendingOrExistingEntityMetadata_absent_or_pair ghost_world "zz");
      by vm_compute.
  - apply (proj1 (proj2 (proj2
      (getPendingOrExistingEntityMetadata_absent_or_pair ghost_world "p2")))
      {| Pending.template := "#interactable-pen"; Pending.creator := "alice";
         Pending.owner := Some "alice" |}); [by vm_compute |].
    intros owner [= <-] _. exists ∅. by vm_compute.
  - apply (proj2 (proj2 (proj2
      (getPendingOrExistingEntityMetadata_absent_or_pair ghost_world "n1")))
      {| getNetworkedTemplate := "#interactable-media"; getCreator := "alice" |});
      by vm_compute.
Defined.

(** ** Message gate: senders without presence *)

(** C1 as stated fails: a first sync that is not persistent is returned as
    it came before the presence directory is consulted. *)
Lemma first_sync_bypasses_presence :
  presence sample_world !! from_session_id first_sync_message = None
  ∧ dataType first_sync_message = "u"
  ∧ authorizeOrSanitizeMessage sample_world initial first_sync_message
    = Ok (Forward first_sync_message, initial)
  ∧ authorizeOrSanitizeMessage sample_world initial first_sync_message
    ≠ Ok (emptyObject, initial).
Proof. split; [by vm_compute |]. split; [done |]. split; [by vm_compute |]. by vm_compute. Qed.

(** C1, amended.  A message from a sender without a presence entry gets the
    empty message, and the module state is left as it was, for every kind
    of message except one: a single update flagged as first sync and not
    persistent, which is returned unmodified whoever sent it. *)
Theorem authorizeOrSanitizeMessage_no_presence (w : World) (st : State) (message : Message) :
  (presence w !! from_session_id message = None →
   first_sync_creation message = false →
   authorizeOrSanitizeMessage w st message = Ok (emptyObject, st))
  ∧ (first_sync_creation message = true →
     authorizeOrSanitizeMessage w st message = Ok (Forward message, st)).
Proof.
  unfold authorizeOrSanitizeMessage. split.
  - by intros -> ->.
  - by intros ->.
Qed.

Lemma authorizeOrSanitizeMessage_no_presence_witness :
  authorizeOrSanitizeMessage sample_world initial
    {| body := Remove sample_update; clientId := "mallory"; from_session_id := "mallory" |}
  = Ok (emptyObject, initial)
  ∧ authorizeOrSanitizeMessage sample_world initial first_sync_message
    = Ok (Forward first_sync_message, initial).
Proof.
  split.
  - apply (authorizeOrSanitizeMessage_no_presence sample_world initial
             {| body := Remove sample_update; clientId := "mallory";
                from_session_id := "mallory" |}); by vm_compute.
  - apply (authorizeOrSanitizeMessage_no_presence sample_world initial first_sync_message).
    by vm_compute.
Defined.

(** ** Message gate: one payload *)

Lemma sanitizeMessageData_state w st t d d' st' :
  sanitizeMessageData w st t d = Ok (d', st') →
  st' = with_schemas st (schemas_in_effect w st) ∧ networkId d' = networkId d
  ∧ fields d' = fields d.
Proof.
  unfold sanitizeMessageData.
  destruct (map_fold _ _ _); [| done ..]. by intros [= <- <-].
Qed.





(** ** Message gate: bulk updates *)













(** ** Persistent-sync stash *)




Lemma read_persistentSyncs_own (syncs : gmap string UpdateMessage) id stashed :
  syncs !! id = Some stashed → read_persistentSyncs syncs id = OwnEntry stashed.
Proof. unfold read_persistentSyncs. by intros ->. Qed.





Lemma store_sync_plain st id stashed :
  (id = "__proto__" → is_Some (persistentSyncs st !! "__proto__")) →
  store_sync st id stashed = Ok (with_syncs st (<[id := stashed]> (persistentSyncs st))).
Proof.
  intros H. unfold store_sync. destruct (decide (id = "__proto__")) as [->|Hne].
  - rewrite (bool_decide_eq_true_2 (is_Some _)) by auto. by rewrite andb_false_r.
  - by rewrite bool_decide_eq_false_2.
Qed.











Lemma authorizeOrSanitizeMessage_stashes w st message d perms :
  body message = Update d → persistent d = true →
  getEntity w !! networkId d = None →
  presence w !! from_session_id message = Some perms →
  (networkId d = "__proto__" → is_Some (persistentSyncs st !! "__proto__")) →
  authorizeOrSanitizeMessage w st message
  = Ok (emptyObject,
        with_syncs st (<[networkId d := as_update message d]> (persistentSyncs st))).
Proof.
  intros Hb Hp He Hs Hproto. unfold authorizeOrSanitizeMessage, first_sync_creation.
  rewrite Hb, Hp, andb_false_r, Hs. simpl. unfold materialized.
  rewrite bool_decide_eq_false_2 by (rewrite He; by intros [? ?]).
  cbn [negb]. by rewrite store_sync_plain.
Qed.







(** ** Merging in the stash *)





(** C6 on the single-update path: the second persistent update for a
    network id replaces the stored one instead of merging into it, so the
    replay hands over B alone and slot ["0"] of A, which the merge of A and
    B holds, is lost. *)
Theorem single_update_stash_overwrites :
  authorizeOrSanitizeMessage bulk_world initial message_A
  = Ok (emptyObject, with_syncs initial {[ "n2" := as_update message_A update_A ]})
  ∧ authorizeOrSanitizeMessage bulk_world
      (with_syncs initial {[ "n2" := as_update message_A update_A ]}) message_B
    = Ok (emptyObject, with_syncs initial {[ "n2" := as_update message_B update_B ]})
  ∧ applyPersistentSync replay_world
      (with_syncs initial {[ "n2" := as_update message_B update_B ]}) "n2"
    = Ok {| nonAuthorizedSchemas := None;
            persistentSyncs := ∅;
            onData := [(Forward message_B, PHOENIX_RELIABLE_NAF)] |}
  ∧ components update_B !! "0" = None
  ∧ components (assign update_A update_B) !! "0" = Some (JObj 7)
  ∧ components (assign update_A update_B) !! "1" = Some (JNum 5).
Proof. split_and!; by vm_compute. Qed.

(** ** No exception, when the schemas cover the templates *)







(** Two more ways to an exception, with every template kind registered: a
    slot named ["hasOwnProperty"] in an update that reaches the sanitizer,
    and a bulk entry to stash under a name of [Object.prototype]. *)
Example shadowing_slot_raises_in_gate :
  is_Some (schemas_in_effect sample_world initial !! "#interactable-media")
  ∧ authorizeOrSanitizeMessage sample_world initial
      {| body := Update shadowing_update; clientId := "bob"; from_session_id := "bob" |}
    = TypeError.
Proof. split; [eexists |]; by vm_compute. Qed.

Example inherited_name_raises_in_bulk_stash :
  authorizeOrSanitizeMessage bulk_world initial
    {| body := UpdateMulti [Some (entry "constructor" {[ "persistent" := JBool true ]})];
       clientId := "bob"; from_session_id := "bob" |}
  = TypeError.
Proof. by vm_compute. Qed.




(** * Further properties of the module *)

(** ** What the local user may do with a scene element *)

(** Whatever may be moved may be cloned or snapshot. *)
Theorem canMove_implies_canCloneOrSnapshot (hubChannelCan : string → bool) (el : Element) :
  canMove hubChannelCan el = true → canCloneOrSnapshot hubChannelCan el = true.
Proof.
  unfold canMove, canCloneOrSnapshot.
  destruct (isHoldableButton el); [done |]. simpl.
  by intros [H _]%andb_true_iff.
Qed.

Lemma canMove_implies_canCloneOrSnapshot_witness :
  canCloneOrSnapshot (λ _, true) {| tags := None; media_loader := Some false |} = true.
Proof.
  apply (canMove_implies_canCloneOrSnapshot (λ _, true)
           {| tags := None; media_loader := Some false |}).
  reflexivity.
Defined.

(** Locked media that is not a holdable button cannot be moved and shows
    no hover effect, whatever the user's permissions; it can still be
    cloned by a user who may spawn and move media. *)
Theorem locked_media_stays_put (hubChannelCan : string → bool) (el : Element) :
  media_loader el = Some true → isHoldableButton el = false →
  canMove hubChannelCan el = false
  ∧ showHoverEffect hubChannelCan el = false
  ∧ canCloneOrSnapshot hubChannelCan el = hubChannelCan "spawn_and_move_media".
Proof.
  intros Hm Hh. unfold showHoverEffect, canMove, canCloneOrSnapshot, isMedia, isLocked.
  rewrite Hh, Hm. simpl. rewrite !andb_false_r. done.
Qed.

Lemma locked_media_stays_put_witness :
  canMove (λ _, true) locked_video = false
  ∧ showHoverEffect (λ _, true) locked_video = false
  ∧ canCloneOrSnapshot (λ _, true) locked_video = true.
Proof. apply (locked_media_stays_put (λ _, true) locked_video); reflexivity. Defined.

(** A holdable button without media loader can be moved and cloned with no
    permission at all, and never shows the hover effect. *)
Theorem holdable_button_without_media (hubChannelCan : string → bool) (el : Element) :
  tags el = Some true → media_loader el = None →
  canMove hubChannelCan el = true
  ∧ canCloneOrSnapshot hubChannelCan el = true
  ∧ showHoverEffect hubChannelCan el = false.
Proof.
  intros Ht Hm. unfold showHoverEffect, canMove, canCloneOrSnapshot, isMedia,
    isHoldableButton.
  rewrite Ht, Hm. done.
Qed.

Lemma holdable_button_without_media_witness :
  canMove (λ _, false) {| tags := Some true; media_loader := None |} = true
  ∧ canCloneOrSnapshot (λ _, false) {| tags := Some true; media_loader := None |} = true
  ∧ showHoverEffect (λ _, false) {| tags := Some true; media_loader := None |} = false.
Proof.
  apply (holdable_button_without_media (λ _, false)
           {| tags := Some true; media_loader := None |}); reflexivity.
Defined.

(** ** Schema registry *)

(** [indexForComponent] is the position of the first schema component equal
    to the descriptor (a bare name only equals a bare name, a pair only a
    pair with both parts equal), and [-1] when the schema has none. *)
Theorem indexForComponent_first_occurrence (component : Descriptor) (schema : Schema.t) :
  (indexForComponent component schema = (-1)%Z
   ∧ component ∉ Schema.components schema)
  ∨ ∃ k : nat,
      indexForComponent component schema = Z.of_nat k
      ∧ Schema.components schema !! k = Some component
      ∧ ∀ j, (j < k)%nat → Schema.components schema !! j ≠ Some component.
Proof. apply indexForComponent_spec. Qed.

Lemma initializeNonAuthorizedSchemas_lookup (dict : gmap string Schema.t) t :
  initializeNonAuthorizedSchemas dict !! t
  = (λ schema,
       (λ c, pretty (indexForComponent c schema))
         <$> default [] (Schema.nonAuthorizedComponents schema)) <$> dict !! t.
Proof. unfold initializeNonAuthorizedSchemas. by rewrite lookup_fmap. Qed.

Lemma safe_index_shape (dict : gmap string Schema.t) t indices k :
  initializeNonAuthorizedSchemas dict !! t = Some indices → k ∈ indices →
  ∃ schema,
    dict !! t = Some schema
    ∧ (k = "-1"
       ∨ ∃ i : nat, (i < List.length (Schema.components schema))%nat
                    ∧ k = pretty (Z.of_nat i)).
Proof.
  rewrite initializeNonAuthorizedSchemas_lookup.
  destruct (dict !! t) as [schema|]; [| done]. simpl. intros [= <-] Hk.
  exists schema. split; [done |].
  apply list_elem_of_fmap in Hk as (c & -> & _).
  destruct (indexForComponent_spec c schema) as [[-> _]|(i & -> & Hi & _)].
  - by left.
  - right. exists i. split; [| done]. by eapply lookup_lt_Some.
Qed.

(** Every index in a template's safe set, as built from the schema
    dictionary, is the decimal rendering of a declared slot position of
    that template's schema, or ["-1"]. *)
Theorem safe_indices_name_declared_slots
    (dict : gmap string Schema.t) (t : string) (indices : list string) (k : string) :
  initializeNonAuthorizedSchemas dict !! t = Some indices → k ∈ indices →
  ∃ schema,
    dict !! t = Some schema
    ∧ (k = "-1"
       ∨ ∃ i : nat, (i < List.length (Schema.components schema))%nat
                    ∧ k = pretty (Z.of_nat i)).
Proof. apply safe_index_shape. Qed.

Lemma safe_indices_name_declared_slots_witness :
  ∃ schema,
    schemaDict sample_world !! "#interactable-media" = Some schema
    ∧ ("3" = "-1"
       ∨ ∃ i : nat, (i < List.length (Schema.components schema))%nat
                    ∧ "3" = pretty (Z.of_nat i)).
Proof.
  apply (safe_indices_name_declared_slots (schemaDict sample_world)
           "#interactable-media" ["3"; "-1"] "3").
  - by vm_compute.
  - apply list_elem_of_here.
Defined.

Lemma schemas_in_effect_fresh w st :
  nonAuthorizedSchemas st = None →
  schemas_in_effect w st = initializeNonAuthorizedSchemas (schemaDict w).
Proof. unfold schemas_in_effect. by intros ->. Qed.

(** On first use, in a payload with no slot named ["hasOwnProperty"], a
    slot whose index is neither ["-1"] nor the position of a declared slot
    of the template's schema is overwritten by null. *)
Theorem sanitizeMessageData_nulls_undeclared_index
    (w : World) (st : State) (t : string) (d : EntityData) (schema : Schema.t) (k : string) :
  nonAuthorizedSchemas st = None →
  schemaDict w !! t = Some schema →
  components d !! "hasOwnProperty" = None →
  is_Some (components d !! k) →
  k ≠ "-1" →
  (∀ i : nat, (i < List.length (Schema.components schema))%nat → k ≠ pretty (Z.of_nat i)) →
  ∃ d' st', sanitizeMessageData w st t d = Ok (d', st')
            ∧ components d' !! k = Some JNull.
Proof.
  intros Hfresh Hs Hclean [v Hv] Hk Hundeclared.
  pose proof (initializeNonAuthorizedSchemas_lookup (schemaDict w) t) as Hl.
  rewrite Hs in Hl. simpl in Hl.
  rewrite <- (schemas_in_effect_fresh w st Hfresh) in Hl.
  rewrite (sanitizeMessageData_registered _ _ _ _ _ Hl Hclean).
  eexists _, _. split; [done |]. simpl.
  rewrite lookup_null_unsafe, Hv. simpl.
  rewrite bool_decide_eq_false_2; [done |]. intros Hin.
  rewrite (schemas_in_effect_fresh w st Hfresh) in Hl.
  destruct (safe_index_shape _ _ _ _ Hl Hin) as (schema' & Hs' & [->|(i & Hi & ->)]);
    [done |].
  rewrite Hs in Hs'. injection Hs' as <-. by eapply Hundeclared.
Qed.

Lemma sanitizeMessageData_nulls_undeclared_index_witness :
  ∃ d' st', sanitizeMessageData sample_world initial "#interactable-media" sample_update
            = Ok (d', st')
            ∧ components d' !! "9" = Some JNull.
Proof.
  apply (sanitizeMessageData_nulls_undeclared_index sample_world initial
           "#interactable-media" sample_update media_schema "9").
  - reflexivity.
  - by vm_compute.
  - by vm_compute.
  - eexists. by vm_compute.
  - done.
  - intros i Hi. do 5 (destruct i as [|i]; [by vm_compute |]). simpl in Hi. lia.
Defined.

(** On first use, a template whose schema lists no non-authorized
    components has every slot of a payload with no slot named
    ["hasOwnProperty"] overwritten by null, and no slot added or removed. *)
Theorem sanitizeMessageData_without_safe_components
    (w : World) (st : State) (t : string) (d : EntityData) (schema : Schema.t) :
  nonAuthorizedSchemas st = None →
  schemaDict w !! t = Some schema →
  default [] (Schema.nonAuthorizedComponents schema) = [] →
  components d !! "hasOwnProperty" = None →
  ∃ d' st', sanitizeMessageData w st t d = Ok (d', st')
            ∧ ∀ k, components d' !! k = (λ _, JNull) <$> components d !! k.
Proof.
  intros Hfresh Hs Hnone Hclean.
  pose proof (initializeNonAuthorizedSchemas_lookup (schemaDict w) t) as Hl.
  rewrite Hs in Hl. simpl in Hl. rewrite Hnone in Hl. simpl in Hl.
  rewrite <- (schemas_in_effect_fresh w st Hfresh) in Hl.
  rewrite (sanitizeMessageData_registered _ _ _ _ _ Hl Hclean).
  eexists _, _. split; [done |]. intros k. simpl.
  rewrite lookup_null_unsafe. by destruct (components d !! k).
Qed.

Lemma sanitizeMessageData_without_safe_components_witness :
  ∃ d' st', sanitizeMessageData plain_world initial "#static-media" sample_update
            = Ok (d', st')
            ∧ ∀ k, components d' !! k = (λ _, JNull) <$> components sample_update !! k.
Proof.
  apply (sanitizeMessageData_without_safe_components plain_world initial
           "#static-media" sample_update
           {| Schema.components := [Bare "position"];
              Schema.nonAuthorizedComponents := None |}); by vm_compute.
Defined.

(** On first use, a non-authorized component that the schema does not
    declare puts ["-1"] into the template's safe set, so in a payload with
    no slot named ["hasOwnProperty"] a slot named ["-1"] passes the
    sanitizer unchanged. *)
Theorem undeclared_safe_component_opens_minus_one
    (w : World) (st : State) (t : string) (d : EntityData) (schema : Schema.t)
    (component : Descriptor) :
  nonAuthorizedSchemas st = None →
  schemaDict w !! t = Some schema →
  component ∈ default [] (Schema.nonAuthorizedComponents schema) →
  component ∉ Schema.components schema →
  components d !! "hasOwnProperty" = None →
  ∃ d' st', sanitizeMessageData w st t d = Ok (d', st')
            ∧ components d' !! "-1" = components d !! "-1".
Proof.
  intros Hfresh Hs Hin Hnot Hclean.
  pose proof (initializeNonAuthorizedSchemas_lookup (schemaDict w) t) as Hl.
  rewrite Hs in Hl. simpl in Hl.
  rewrite <- (schemas_in_effect_fresh w st Hfresh) in Hl.
  rewrite (sanitizeMessageData_registered _ _ _ _ _ Hl Hclean).
  eexists _, _. split; [done |]. simpl.
  rewrite lookup_null_unsafe. destruct (components d !! "-1"); [| done]. simpl.
  rewrite bool_decide_eq_true_2; [done |].
  apply list_elem_of_fmap. exists component. split; [| done].
  destruct (indexForComponent_spec component schema) as [[-> _]|(i & _ & Hi & _)].
  - done.
  - exfalso. apply Hnot. by eapply list_elem_of_lookup_2.
Qed.

Lemma undeclared_safe_component_opens_minus_one_witness :
  ∃ d' st', sanitizeMessageData sample_world initial "#interactable-media" smuggled_update
            = Ok (d', st')
            ∧ components d' !! "-1" = components smuggled_update !! "-1".
Proof.
  apply (undeclared_safe_component_opens_minus_one sample_world initial
           "#interactable-media" smuggled_update media_schema (Bare "missing")).
  - reflexivity.
  - by vm_compute.
  - simpl. apply list_elem_of_further, list_elem_of_here.
  - simpl. rewrite !not_elem_of_cons. split_and!; try done. apply not_elem_of_nil.
  - by vm_compute.
Defined.

(** The safe sets are built once: after a run of the sanitizer has
    returned, every later run uses the safe sets that run had in effect,
    whatever the schema dictionary holds by then. *)
Theorem safe_sets_built_once
    (w w' : World) (st st' : State) (t t2 : string) (d d' d2 : EntityData) :
  sanitizeMessageData w st t d = Ok (d', st') →
  schemas_in_effect w' st' = schemas_in_effect w st
  ∧ sanitizeMessageData w' st' t2 d2 = sanitizeMessageData w st' t2 d2.
Proof.
  intros (-> & _)%sanitizeMessageData_state. split; [apply schemas_in_effect_cached |].
  unfold sanitizeMessageData. by rewrite !schemas_in_effect_cached.
Qed.

Lemma safe_sets_built_once_witness :
  schemas_in_effect plain_world
    (with_schemas initial {[ "#interactable-media" := ["3"; "-1"] ]})
  = schemas_in_effect sample_world initial
  ∧ sanitizeMessageData plain_world
      (with_schemas initial {[ "#interactable-media" := ["3"; "-1"] ]})
      "#static-media" sample_update
    = sanitizeMessageData sample_world
        (with_schemas initial {[ "#interactable-media" := ["3"; "-1"] ]})
        "#static-media" sample_update.
Proof.
  apply (safe_sets_built_once sample_world plain_world initial
           (with_schemas initial {[ "#interactable-media" := ["3"; "-1"] ]})
           "#interactable-media" "#static-media" sample_update
           (with_components sample_update
              {[ "0" := JNull; "3" := JNum 42; "9" := JNull ]})
           sample_update).
  apply sanitize_ex.
Defined.

(** ** Message gate: what it leaves alone *)





(** Removal is all or nothing: for a sender with a presence entry the gate
    returns the removal message untouched when the entity's metadata resolves
    and the policy authorizes the sender, and the empty message otherwise;
    it never raises and never changes the module state. *)
Theorem remove_all_or_nothing
    (w : World) (st : State) (message : Message) (d : EntityData) (perms : Permissions) :
  body message = Remove d →
  presence w !! from_session_id message = Some perms →
  ∃ reply,
    authorizeOrSanitizeMessage w st message = Ok (reply, st)
    ∧ (reply = Forward message ∨ reply = emptyObject)
    ∧ (reply = Forward message ↔
       ∃ entityMetadata,
         getPendingOrExistingEntityMetadata w (networkId d) = Found entityMetadata
         ∧ authorizeEntityManipulation entityMetadata (from_session_id message) perms = true).
Proof.
  intros Hb Hp. unfold authorizeOrSanitizeMessage, first_sync_creation.
  rewrite Hb, Hp.
  destruct (getPendingOrExistingEntityMetadata w (networkId d)) as [md| |].
  - destruct (authorizeEntityManipulation md _ perms) eqn:Ha.
    + exists (Forward message). split_and!; [done | by left |].
      split; [intros _; by exists md | done].
    + exists emptyObject. split_and!; [done | by right |].
      split; [done |]. intros (md' & [= <-] & ?). congruence.
  - exists emptyObject. split_and!; [done | by right |].
    split; [done | by intros (? & ? & _)].
  - exists emptyObject. split_and!; [done | by right |].
    split; [done | by intros (? & ? & _)].
Qed.

Lemma remove_all_or_nothing_witness :
  ∃ reply,
    authorizeOrSanitizeMessage bulk_world initial
      {| body := Remove (entry "n3" ∅); clientId := "dave"; from_session_id := "dave" |}
    = Ok (reply, initial)
    ∧ (reply = Forward {| body := Remove (entry "n3" ∅); clientId := "dave";
                          from_session_id := "dave" |}
       ∨ reply = emptyObject)
    ∧ (reply = Forward {| body := Remove (entry "n3" ∅); clientId := "dave";
                          from_session_id := "dave" |} ↔
       ∃ entityMetadata,
         getPendingOrExistingEntityMetadata bulk_world "n3" = Found entityMetadata
         ∧ authorizeEntityManipulation entityMetadata "dave" ∅ = true).
Proof.
  apply (remove_all_or_nothing bulk_world initial
           {| body := Remove (entry "n3" ∅); clientId := "dave"; from_session_id := "dave" |}
           (entry "n3" ∅) ∅); by vm_compute.
Defined.

(** ** Message gate: single updates *)

Lemma with_body_same message b : body message = b → with_body message b = message.
Proof. destruct message. simpl. by intros ->. Qed.

(** A single update that is not a first-sync creation and is not stashed,
    from a sender the policy authorizes, is returned exactly as it came and
    changes nothing in the module state. *)
Theorem authorized_update_passes_untouched
    (w : World) (st : State) (message : Message) (d : EntityData) (perms : Permissions)
    (entityMetadata : EntityMetadata) :
  body message = Update d →
  first_sync_creation message = false →
  presence w !! from_session_id message = Some perms →
  persistent d && negb (materialized w (networkId d)) = false →
  getPendingOrExistingEntityMetadata w (networkId d) = Found entityMetadata →
  authorizeEntityManipulation entityMetadata (from_session_id message) perms = true →
  authorizeOrSanitizeMessage w st message = Ok (Forward message, st).
Proof.
  intros Hb Hf Hp Hs Hr Ha. unfold authorizeOrSanitizeMessage.
  rewrite Hf, Hp, Hb, Hs. unfold authorizeOrSanitizeMessageData. rewrite Hr, Ha.
  by rewrite (with_body_same _ _ Hb).
Qed.

Lemma authorized_update_passes_untouched_witness :
  authorizeOrSanitizeMessage bulk_world initial
    {| body := Update (entry "n3" ∅); clientId := "bob"; from_session_id := "bob" |}
  = Ok (Forward {| body := Update (entry "n3" ∅); clientId := "bob";
                   from_session_id := "bob" |}, initial).
Proof.
  apply (authorized_update_passes_untouched bulk_world initial
           {| body := Update (entry "n3" ∅); clientId := "bob"; from_session_id := "bob" |}
           (entry "n3" ∅) {[ "spawn_camera" := true ]}
           {| template := "#interactable-camera"; creator := "alice" |}); by vm_compute.
Defined.

(** A single update from a sender the policy does not authorize is not
    dropped: when the template has a safe set and the payload no slot named
    ["hasOwnProperty"], the gate forwards the message with its payload as
    the sanitizer leaves it. *)
Theorem unauthorized_update_forwarded_sanitized
    (w : World) (st : State) (message : Message) (d : EntityData) (perms : Permissions)
    (entityMetadata : EntityMetadata) (indices : list string) :
  body message = Update d →
  first_sync_creation message = false →
  presence w !! from_session_id message = Some perms →
  persistent d && negb (materialized w (networkId d)) = false →
  getPendingOrExistingEntityMetadata w (networkId d) = Found entityMetadata →
  authorizeEntityManipulation entityMetadata (from_session_id message) perms = false →
  schemas_in_effect w st !! template entityMetadata = Some indices →
  components d !! "hasOwnProperty" = None →
  authorizeOrSanitizeMessage w st message
  = Ok (Forward (with_body message
                   (Update (with_components d (null_unsafe indices (components d))))),
        with_schemas st (schemas_in_effect w st)).
Proof.
  intros Hb Hf Hp Hs Hr Ha Hi Hclean. unfold authorizeOrSanitizeMessage.
  rewrite Hf, Hp, Hb, Hs. unfold authorizeOrSanitizeMessageData. rewrite Hr, Ha.
  by rewrite (sanitizeMessageData_registered _ _ _ _ _ Hi Hclean).
Qed.

Lemma unauthorized_update_forwarded_sanitized_witness :
  authorizeOrSanitizeMessage bulk_world initial
    {| body := Update (entry "n1" ∅); clientId := "dave"; from_session_id := "dave" |}
  = Ok (Forward {| body := Update (with_components (entry "n1" ∅)
                                     (null_unsafe ["3"; "-1"] (components (entry "n1" ∅))));
                   clientId := "dave"; from_session_id := "dave" |},
        with_schemas initial (schemas_in_effect bulk_world initial)).
Proof.
  apply (unauthorized_update_forwarded_sanitized bulk_world initial
           {| body := Update (entry "n1" ∅); clientId := "dave"; from_session_id := "dave" |}
           (entry "n1" ∅) ∅
           {| template := "#interactable-media"; creator := "alice" |} ["3"; "-1"]);
    by vm_compute.
Defined.

(** ** Persistent-sync stash: further properties *)












(** A replay that comes before the entity is materialized loses the
    update: the gate stashes the message again, the runtime is handed the
    empty message, and the entry is then deleted. *)
Theorem premature_replay_drops_update
    (w : World) (st : State) (id : string) (stashed : UpdateMessage) (perms : Permissions) :
  persistentSyncs st !! id = Some stashed →
  networkId (data stashed) = id →
  persistent (data stashed) = true →
  getEntity w !! id = None →
  presence w !! u_from_session_id stashed = Some perms →
  applyPersistentSync w st id
  = Ok {| nonAuthorizedSchemas := nonAuthorizedSchemas st;
          persistentSyncs := delete id (persistentSyncs st);
          onData := onData st ++ [(emptyObject, PHOENIX_RELIABLE_NAF)] |}.
Proof.
  intros Hs Hid Hp He Hpr. unfold applyPersistentSync.
  rewrite (read_persistentSyncs_own _ _ _ Hs).
  rewrite (authorizeOrSanitizeMessage_stashes w st (as_message stashed) (data stashed) perms);
    [| done | done | by rewrite Hid | done |].
  - simpl. by rewrite Hid, delete_insert_eq.
  - rewrite Hid. intros ->. by eexists.
Qed.

Lemma premature_replay_drops_update_witness :
  applyPersistentSync bulk_world stashed_state "n2"
  = Ok {| nonAuthorizedSchemas := None;
          persistentSyncs := delete "n2" (persistentSyncs stashed_state);
          onData := [(emptyObject, PHOENIX_RELIABLE_NAF)] |}.
Proof.
  apply (premature_replay_drops_update bulk_world stashed_state "n2"
           (as_update persistent_update persistent_entry) {[ "spawn_camera" := true ]});
    by vm_compute.
Defined.

(** ** Scene graph helpers *)

Lemma node_size_unfold n : node_size n = S (forest_size (default [] (children n))).
Proof.
  by destruct n as [u [l|]].
Qed.

Lemma nodes_of_unfold n : nodes_of n = n :: forest_nodes (default [] (children n)).
Proof.
  by destruct n as [u [l|]].
Qed.

Lemma forest_size_app l1 l2 : forest_size (l1 ++ l2) = forest_size l1 + forest_size l2.
Proof. induction l1 as [|x l1 IH]; simpl; [done |]. rewrite IH. lia. Qed.

Lemma forest_nodes_cons n l :
  forest_nodes (n :: l)
  = (n :: forest_nodes (default [] (children n)) ++ forest_nodes l)%list.
Proof. unfold forest_nodes. by rewrite bind_cons, nodes_of_unfold. Qed.

Lemma forest_nodes_app l1 l2 :
  forest_nodes (l1 ++ l2) = (forest_nodes l1 ++ forest_nodes l2)%list.
Proof. unfold forest_nodes. apply bind_app. Qed.

Lemma findNode_loop_correct (pred : SceneNode → bool) :
  ∀ fuel nodes, forest_size nodes < fuel →
    ∃ r, findNode_loop pred fuel nodes = Some r
         ∧ match r with
           | Some n => pred n = true ∧ n ∈ forest_nodes nodes
           | None => ∀ n, n ∈ forest_nodes nodes → pred n = false
           end.
Proof.
  induction fuel as [|fuel IH]; intros nodes Hfuel; [lia |].
  destruct nodes as [|node rest]; cbn [findNode_loop].
  - exists None. split; [done |]. by intros n ?%elem_of_nil.
  - destruct (pred node) eqn:Hp.
    + exists (Some node). split; [done |]. split; [done |].
      rewrite forest_nodes_cons. apply list_elem_of_here.
    + simpl in Hfuel. rewrite node_size_unfold in Hfuel.
      assert (∃ r, findNode_loop pred fuel (rest ++ default [] (children node)) = Some r
                   ∧ match r with
                     | Some n => pred n = true
                                 ∧ n ∈ forest_nodes (rest ++ default [] (children node))
                     | None => ∀ n, n ∈ forest_nodes (rest ++ default [] (children node)) →
                                    pred n = false
                     end) as (r & Hr & Hprop).
      { apply IH. rewrite forest_size_app. lia. }
      exists r. split.
      * destruct (children node); simpl in Hr; [done |]. by rewrite app_nil_r in Hr.
      * rewrite forest_nodes_cons. rewrite forest_nodes_app in Hprop.
        destruct r as [n|].
        -- destruct Hprop as [Hn Hin]. split; [done |].
           apply elem_of_cons. right. apply elem_of_app in Hin as [?|?];
             apply elem_of_app; auto.
        -- intros n [->|Hin]%elem_of_cons; [done |]. apply Hprop.
           apply elem_of_app in Hin as [?|?]; apply elem_of_app; auto.
Qed.

(** [findNode] returns, on every tree: a node of the tree that satisfies
    the predicate, or [null] when no node of the tree does. *)
Theorem findNode_sound_and_complete (root : SceneNode) (pred : SceneNode → bool) :
  ∃ r, findNode root pred = Some r
       ∧ match r with
         | Some n => pred n = true ∧ n ∈ nodes_of root
         | None => ∀ n, n ∈ nodes_of root → pred n = false
         end.
Proof.
  destruct (findNode_loop_correct pred (S (node_size root)) [root]) as (r & Hr & Hp).
  { simpl. lia. }
  exists r. split; [done |].
  rewrite forest_nodes_cons in Hp. rewrite nodes_of_unfold.
  change (forest_nodes []) with (@nil SceneNode) in Hp. by rewrite app_nil_r in Hp.
Qed.

Lemma child_level_app l1 l2 :
  child_level (l1 ++ l2) = (child_level l1 ++ child_level l2)%list.
Proof. unfold child_level. apply bind_app. Qed.

Lemma child_level_cons n l :
  child_level (n :: l) = (default [] (children n) ++ child_level l)%list.
Proof. done. Qed.

Lemma forest_size_child_level l :
  forest_size l = List.length l + forest_size (child_level l).
Proof.
  induction l as [|n l IH]; [done |].
  rewrite child_level_cons, forest_size_app. cbn [forest_size List.length].
  rewrite node_size_unfold, IH. lia.
Qed.

Lemma levels_nil depth : levels depth [] = [].
Proof. induction depth as [|k IH]; [done |]. simpl. exact IH. Qed.

(** The queue of the loop is what is left of the current level followed by
    the children of the part already visited. *)
Lemma findNode_loop_levels (pred : SceneNode → bool) :
  ∀ fuel visited pending depth,
    forest_size (pending ++ child_level visited) < fuel →
    (forest_size (child_level (visited ++ pending)) ≤ depth)%nat →
    findNode_loop pred fuel (pending ++ child_level visited)%list
    = Some (List.find pred (pending ++ levels depth (child_level (visited ++ pending)))%list).
Proof.
  induction fuel as [|fuel IH]; intros visited pending depth Hfuel Hdepth; [lia |].
  assert (∀ visited node rest depth,
            forest_size ((node :: rest) ++ child_level visited) < S fuel →
            (forest_size (child_level (visited ++ node :: rest)) ≤ depth)%nat →
            findNode_loop pred (S fuel) ((node :: rest) ++ child_level visited)%list
            = Some (List.find pred
                      ((node :: rest)
                       ++ levels depth (child_level (visited ++ node :: rest)))%list))
    as Hstep.
  { clear visited pending depth Hfuel Hdepth.
    intros visited node rest depth Hfuel Hdepth.
    cbn [app findNode_loop List.find]. destruct (pred node); [done |].
    cbn [app forest_size] in Hfuel. rewrite node_size_unfold in Hfuel.
    replace (match children node with
             | Some kids => findNode_loop pred fuel ((rest ++ child_level visited) ++ kids)
             | None => findNode_loop pred fuel (rest ++ child_level visited)
             end)
      with (findNode_loop pred fuel (rest ++ child_level (visited ++ [node]))).
    - rewrite (IH (visited ++ [node])%list rest depth).
      + by rewrite <- app_assoc.
      + rewrite forest_size_app in Hfuel.
        rewrite forest_size_app, child_level_app, forest_size_app.
        change (child_level [node]) with (default [] (children node) ++ [])%list.
        rewrite app_nil_r. lia.
      + by rewrite <- app_assoc.
    - rewrite child_level_app.
      change (child_level [node]) with (default [] (children node) ++ [])%list.
      rewrite app_nil_r, app_assoc.
      destruct (children node); simpl; [done |]. by rewrite app_nil_r. }
  destruct pending as [|node rest]; [| by apply Hstep].
  rewrite app_nil_r in Hdepth. rewrite app_nil_r. cbn [app] in *.
  destruct (child_level visited) as [|node rest] eqn:Hq.
  - by rewrite levels_nil.
  - pose proof (forest_size_child_level (node :: rest)) as Hsize.
    cbn [List.length] in Hsize.
    destruct depth as [|depth]; [lia |]. cbn [levels].
    specialize (Hstep [] node rest depth).
    change (child_level []) with (@nil SceneNode) in Hstep.
    rewrite app_nil_r in Hstep. cbn [app] in Hstep. apply Hstep; lia.
Qed.

(** [findNode] searches breadth first: its result is the first node, level
    by level and left to right within a level, that satisfies the
    predicate. *)
Theorem findNode_breadth_first (root : SceneNode) (pred : SceneNode → bool) :
  findNode root pred = Some (List.find pred (breadth_first root)).
Proof.
  unfold findNode, breadth_first.
  pose proof (findNode_loop_levels pred (S (node_size root)) [] [root]
                (forest_size (default [] (children root)))) as H.
  change (child_level []) with (@nil SceneNode) in H.
  cbn [app forest_size] in H. rewrite node_size_unfold. cbn [levels].
  rewrite node_size_unfold in H. rewrite H; [done | lia |].
  rewrite child_level_cons. change (child_level []) with (@nil SceneNode).
  by rewrite app_nil_r.
Qed.

Example findNode_ex :
  findNode sample_tree (λ n, (2 <? uuid n)%N) = Some (Some (Node3D 3 (Some []))).
Proof. reflexivity. Qed.

(** ** Ancestry *)

Lemma isChildOf_loop_object node c :
  isChildOf_loop node (Some c)
  = bool_decide (object_id c ∈ object_id node :: ancestors node).
Proof.
  induction node as [i|i up IH]; cbn [isChildOf_loop same_object object_id ancestors].
  - destruct (N.eqb_spec i (object_id c)) as [->|Hne].
    + rewrite bool_decide_eq_true_2; [done | apply list_elem_of_here].
    + rewrite bool_decide_eq_false_2; [done |].
      intros [?|?%elem_of_nil]%elem_of_cons; congruence.
  - destruct (N.eqb_spec i (object_id c)) as [->|Hne].
    + rewrite bool_decide_eq_true_2; [done | apply list_elem_of_here].
    + rewrite IH. apply bool_decide_ext. rewrite (elem_of_cons _ _ i).
      split; [by right | intros [?|?]; [congruence | done]].
Qed.

Lemma isChildOf_loop_null node : isChildOf_loop node None = false.
Proof. induction node as [i|i up IH]; simpl; [done | exact IH]. Qed.

(** For an object that has a parent, [isChildOf] answers whether the
    candidate is among the objects above it: the parent, the parent's
    parent, and so on; the answer for the candidate [null] is false. *)
Theorem isChildOf_is_ancestry (obj up : Object3D) (candidate : Object3D) :
  parent obj = Some up →
  isChildOf obj (Some candidate) = Ok (bool_decide (object_id candidate ∈ ancestors obj))
  ∧ isChildOf obj None = Ok false.
Proof.
  destruct obj as [i|i up']; [done |]. intros [= ->].
  unfold isChildOf. cbn [parent ancestors].
  by rewrite isChildOf_loop_object, isChildOf_loop_null.
Qed.

Lemma isChildOf_is_ancestry_witness :
  isChildOf sample_chain (Some (Root 1)) = Ok true
  ∧ isChildOf sample_chain None = Ok false.
Proof.
  apply (isChildOf_is_ancestry sample_chain (Child 2 (Root 1)) (Root 1)). reflexivity.
Defined.

(** On an object without parent the first turn of the loop reads
    [null.parent]: [isChildOf] raises for every candidate object, and
    answers true for the candidate [null]. *)
Theorem isChildOf_raises_on_root (obj : Object3D) (candidate : Object3D) :
  parent obj = None →
  isChildOf obj (Some candidate) = TypeError ∧ isChildOf obj None = Ok true.
Proof. intros H. unfold isChildOf. by rewrite H. Qed.

Lemma isChildOf_raises_on_root_witness :
  isChildOf (Root 1) (Some sample_chain) = TypeError ∧ isChildOf (Root 1) None = Ok true.
Proof. apply (isChildOf_raises_on_root (Root 1) sample_chain). reflexivity. Defined.

(** ** Traversal of a tree and its clone *)

Lemma SceneNode_nested_ind (P : SceneNode → Prop) :
  (∀ u, P (Node3D u None)) →
  (∀ u l, Forall P l → P (Node3D u (Some l))) →
  ∀ n, P n.
Proof.
  intros Hleaf Hnode. fix IH 1. intros [u [l|]]; [| apply Hleaf].
  apply Hnode. induction l as [|x l IHl]; constructor; [apply IH | apply IHl].
Qed.

Lemma each_child_same_shape v kb :
  ∀ kids i,
    Forall (λ a, ∀ b, same_shape a b →
              ∃ calls, parallelTraverse a (Some b) = Ok calls
                       ∧ calls.*1 = nodes_of a ∧ calls.*2 = Some <$> nodes_of b
                       ∧ Forall (λ c, ∃ y, c.2 = Some y ∧ same_shape c.1 y) calls) kids →
    Forall2 same_shape kids (drop i kb) →
    ∃ calls, each_child parallelTraverse (Some (Node3D v (Some kb))) kids i = Ok calls
             ∧ calls.*1 = forest_nodes kids
             ∧ calls.*2 = Some <$> forest_nodes (drop i kb)
             ∧ Forall (λ c, ∃ y, c.2 = Some y ∧ same_shape c.1 y) calls.
Proof.
  induction kids as [|kid more IH]; intros i Hall Hshape; cbn [each_child].
  - apply Forall2_nil_inv_l in Hshape. rewrite Hshape. by exists [].
  - apply Forall2_cons_inv_l in Hshape as (bk & rest & Hkid & Hmore & Hdrop).
    apply Forall_cons in Hall as [Hhead Htail].
    assert (kb !! i = Some bk) as Hi.
    { rewrite <- (Nat.add_0_r i), <- lookup_drop, Hdrop. done. }
    assert (rest = drop (S i) kb) as ->.
    { replace (S i) with (i + 1) by lia. by rewrite <- drop_drop, Hdrop. }
    rewrite Hi.
    destruct (Hhead bk Hkid) as (first & -> & Hf1 & Hf2 & Hf3).
    destruct (IH (S i) Htail Hmore) as (others & -> & Ho1 & Ho2 & Ho3).
    exists (first ++ others)%list.
    rewrite Hdrop, !forest_nodes_cons, !fmap_app, Hf1, Hf2, Ho1, Ho2.
    split_and!; [done | | | by apply Forall_app].
    + by rewrite nodes_of_unfold.
    + by rewrite (nodes_of_unfold bk), <- fmap_app.
Qed.

Lemma parallelTraverse_same_shape a :
  ∀ b, same_shape a b →
    ∃ calls, parallelTraverse a (Some b) = Ok calls
             ∧ calls.*1 = nodes_of a ∧ calls.*2 = Some <$> nodes_of b
             ∧ Forall (λ c, ∃ y, c.2 = Some y ∧ same_shape c.1 y) calls.
Proof.
  induction a as [u|u ka IH] using SceneNode_nested_ind; intros b Hs; [inversion Hs |].
  inversion Hs as [u' v ka' kb Hkids]; subst.
  cbn [parallelTraverse].
  destruct (each_child_same_shape v kb ka 0 IH Hkids) as (calls & -> & H1 & H2 & H3).
  exists ((Node3D u (Some ka), Some (Node3D v (Some kb))) :: calls).
  rewrite !fmap_cons, H1, H2, !nodes_of_unfold. simpl.
  split_and!; [done | done | done |]. constructor; [| done].
  exists (Node3D v (Some kb)). by split.
Qed.

(** Run on a tree and a tree of the same shape, as a clone is,
    [parallelTraverse] raises nothing and calls back once per node, in
    preorder, each node of the first tree with the node at the same place
    in the second. *)
Theorem parallelTraverse_pairs_each_node_with_its_clone (a b : SceneNode) :
  same_shape a b →
  ∃ calls, parallelTraverse a (Some b) = Ok calls
           ∧ calls.*1 = nodes_of a ∧ calls.*2 = Some <$> nodes_of b
           ∧ Forall (λ c, ∃ y, c.2 = Some y ∧ same_shape c.1 y) calls.
Proof. apply parallelTraverse_same_shape. Qed.

Lemma sample_clone_same_shape : same_shape sample_source sample_clone.
Proof. repeat constructor. Qed.

Lemma parallelTraverse_pairs_each_node_with_its_clone_witness :
  ∃ calls, parallelTraverse sample_source (Some sample_clone) = Ok calls
           ∧ calls.*1 = nodes_of sample_source
           ∧ calls.*2 = Some <$> nodes_of sample_clone
           ∧ Forall (λ c, ∃ y, c.2 = Some y ∧ same_shape c.1 y) calls.
Proof.
  apply (parallelTraverse_pairs_each_node_with_its_clone sample_source sample_clone).
  apply sample_clone_same_shape.
Defined.

Example parallelTraverse_ex :
  parallelTraverse sample_source (Some sample_clone)
  = Ok [(sample_source, Some sample_clone);
        (Node3D 2 (Some [Node3D 4 (Some [])]), Some (Node3D 12 (Some [Node3D 14 (Some [])])));
        (Node3D 4 (Some []), Some (Node3D 14 (Some [])));
        (Node3D 3 (Some []), Some (Node3D 13 (Some [])))].
Proof. reflexivity. Qed.

Example parallelTraverse_missing_children :
  parallelTraverse sample_tree (Some sample_tree) = TypeError.
Proof. reflexivity. Qed.
